(** * The Interpreter pattern: lexer, parser and evaluator

    A shallow embedding of [Behavioral_patterns/interpreter_dp.py]:
    [lex] turns a string into tokens, [parse] turns tokens into a
    [BinaryExpression] tree, and the [value] property evaluates a tree.

    Conventions of the embedding.
    - A Python [str] is a Rocq [string]; a character is a code point in
      0..255 (the Latin-1 range).  [isdigit] and [int] are the Python
      built-ins restricted to that range.
    - Python integers are unbounded: [Z].
    - Attributes that hold [None] are [option]s.
    - An exception is an [outcome] carrying the exception class.
    - [while] loops run on fuel; each loop is shown to finish with the
      fuel its entry point supplies.
    - [print] appends a line to an explicit console.
    - The interpreter's bounds on recursion depth and on the number of
      digits [int] reads are left out. *)

From Stdlib Require Import String Ascii List ZArith Lia Bool Arith.
From Stdlib Require Import DecimalString.
Import ListNotations.
Local Open Scope string_scope.
Local Open Scope list_scope.
Local Open Scope nat_scope.

(** ** Exceptions *)

Inductive exn : Type :=
| ValueError
| AttributeError.

Inductive outcome (A : Type) : Type :=
| Ok (a : A)
| Raise (e : exn).

Arguments Ok {A} a.
Arguments Raise {A} e.

Definition bind {A B : Type} (m : outcome A) (k : A -> outcome B) : outcome B :=
  match m with
  | Ok a => k a
  | Raise e => Raise e
  end.

Notation "x <- m ;; k" := (bind m (fun x => k))
  (at level 61, m at next level, right associativity).

(** ** Built-ins on characters and strings *)

(** [str.isdigit] for one character: the ten ASCII digits and the three
    Latin-1 superscripts (code points 178, 179 and 185). *)
Definition isdigit (c : ascii) : bool :=
  let n := nat_of_ascii c in
  ((48 <=? n) && (n <=? 57)) || (n =? 178) || (n =? 179) || (n =? 185).

(** The characters [int] reads as decimal digits. *)
Definition isdecimal (c : ascii) : bool :=
  let n := nat_of_ascii c in (48 <=? n) && (n <=? 57).

(** The characters [int] skips around a literal. *)
Definition int_space (c : ascii) : bool :=
  let n := nat_of_ascii c in
  ((9 <=? n) && (n <=? 13)) || (n =? 32) || (n =? 133) || (n =? 160).

Definition digit_value (c : ascii) : Z := Z.of_nat (nat_of_ascii c - 48).

(** What [int] saw last while reading the digits of a literal. *)
Inductive int_state : Type :=
| AtStart
| AfterDigit
| AfterUnderscore.

(** The digits of a literal: decimal digits, a single underscore allowed
    between two digits, then only trailing space. *)
Fixpoint int_digits (st : int_state) (acc : Z) (s : list ascii) : option Z :=
  match s with
  | [] => match st with AfterDigit => Some acc | _ => None end
  | c :: s' =>
      if isdecimal c then int_digits AfterDigit (10 * acc + digit_value c) s'
      else if Ascii.eqb c "_" then
        match st with
        | AfterDigit => int_digits AfterUnderscore acc s'
        | _ => None
        end
      else if int_space c then
        match st with
        | AfterDigit => if forallb int_space s' then Some acc else None
        | _ => None
        end
      else None
  end.

Fixpoint lstrip (s : list ascii) : list ascii :=
  match s with
  | c :: s' => if int_space c then lstrip s' else s
  | [] => []
  end.

(** [int(text)] in base ten; [None] stands for [ValueError]. *)
Definition py_int (text : string) : option Z :=
  match lstrip (list_ascii_of_string text) with
  | "+"%char :: s => int_digits AtStart 0 s
  | "-"%char :: s => option_map Z.opp (int_digits AtStart 0 s)
  | s => int_digits AtStart 0 s
  end.

(** [input_[i]], used only under the guard [i < len(input_)]. *)
Definition char_at (input_ : string) (i : nat) : ascii :=
  match String.get i input_ with
  | Some c => c
  | None => zero
  end.

(** [str.join] with an empty separator, on a list of characters. *)
Definition join (digits : list ascii) : string := string_of_list_ascii digits.

(** ** Tokens *)

Module Token.

Inductive Type_ : Type :=
| INTEGER
| PLUS
| MINUS
| LPAREN
| RPAREN.

Record t : Type := new { type_ : Type_; text : string }.

Definition Type_eqb (a b : Type_) : bool :=
  match a, b with
  | INTEGER, INTEGER | PLUS, PLUS | MINUS, MINUS
  | LPAREN, LPAREN | RPAREN, RPAREN => true
  | _, _ => false
  end.

End Token.

(** ** Lexing *)

(** The console: the lines printed so far. *)
Definition console : Type := list string.

(** The inner [for j in range(i + 1, len(input_))] of [lex].  It returns
    the updated [i] and [result].  When the range runs out nothing is
    appended. *)
Fixpoint lex_for (input_ : string) (range : list nat) (digits : list ascii)
         (i : nat) (result : list Token.t) : nat * list Token.t :=
  match range with
  | [] => (i, result)
  | j :: range' =>
      if isdigit (char_at input_ j)
      then lex_for input_ range' (digits ++ [char_at input_ j]) (i + 1) result
      else (i, result ++ [Token.new Token.INTEGER (join digits)])
  end.

(** The [while i < len(input_)] loop of [lex]. *)
Fixpoint lex_while (fuel : nat) (input_ : string) (result : list Token.t)
         (i : nat) : option (list Token.t) :=
  match fuel with
  | O => None
  | S fuel' =>
      if i <? String.length input_ then
        let c := char_at input_ i in
        if Ascii.eqb c "+" then
          lex_while fuel' input_ (result ++ [Token.new Token.PLUS "+"]) (i + 1)
        else if Ascii.eqb c "-" then
          lex_while fuel' input_ (result ++ [Token.new Token.MINUS "-"]) (i + 1)
        else if Ascii.eqb c "(" then
          lex_while fuel' input_ (result ++ [Token.new Token.LPAREN "("]) (i + 1)
        else if Ascii.eqb c ")" then
          lex_while fuel' input_ (result ++ [Token.new Token.RPAREN ")"]) (i + 1)
        else
          let '(i', result') :=
            lex_for input_ (seq (i + 1) (String.length input_ - (i + 1)))
                    [c] i result in
          lex_while fuel' input_ result' (i' + 1)
      else Some result
  end.

(** [lex]: prints one line, then runs the loop from an empty result. *)
Definition lex (input_ : string) (out : console)
  : option (list Token.t) * console :=
  let out := out ++ ["Lexing"] in
  (lex_while (S (String.length input_)) input_ [] 0, out).

(** The token sequence [lex] returns, the console left aside. *)
Definition tokenize (input_ : string) : option (list Token.t) :=
  fst (lex input_ []).

(** ** Expressions *)

Module BinaryExpression.

Inductive Type_ : Type :=
| ADDITION
| SUBTRACTION.

(** The three attributes of a node; [E] is the type of operands. *)
Record t (E : Type) : Type :=
  new { type_ : option Type_; left : option E; right : option E }.

Arguments new {E} _ _ _.
Arguments type_ {E} _.
Arguments left {E} _.
Arguments right {E} _.

(** [__init__]: every attribute is [None]. *)
Definition init {E : Type} : t E := new None None None.

Definition set_type_ {E} (self : t E) (ty : Type_) : t E :=
  new (Some ty) (left self) (right self).
Definition set_left {E} (self : t E) (e : E) : t E :=
  new (type_ self) (Some e) (right self).
Definition set_right {E} (self : t E) (e : E) : t E :=
  new (type_ self) (left self) (Some e).

End BinaryExpression.

(** An operand is an [Integer] or a [BinaryExpression]. *)
#[warnings="-register-all"]
Inductive Expr : Type :=
| Integer (value : Z)
| Binary (node : BinaryExpression.t Expr).

Definition Node : Type := BinaryExpression.t Expr.

(** The [value] attribute of an [Integer] and the [value] property of a
    [BinaryExpression].  Reading [.value] of [None] raises
    [AttributeError]; the left operand is read first. *)
Fixpoint value (e : Expr) : outcome Z :=
  match e with
  | Integer v => Ok v
  | Binary (BinaryExpression.new ty l r) =>
      let operand (o : option Expr) : outcome Z :=
        match o with
        | Some x => value x
        | None => Raise AttributeError
        end in
      match ty with
      | Some BinaryExpression.ADDITION =>
          a <- operand l ;; b <- operand r ;; Ok (a + b)%Z
      | _ =>
          a <- operand l ;; b <- operand r ;; Ok (a - b)%Z
      end
  end.

(** ** Parsing *)

(** [tokens[i]], used only under the guard [i < len(tokens)]. *)
Definition token_at (tokens : list Token.t) (i : nat) : Token.t :=
  nth i tokens (Token.new Token.RPAREN "").

(** [tokens[a:b]] for indices that are not negative. *)
Definition slice (tokens : list Token.t) (a b : nat) : list Token.t :=
  firstn (b - a) (skipn a tokens).

(** The inner [while j < len(tokens)] of [parse]: the first index from [j]
    on that holds an [RPAREN], or [len(tokens)]. *)
Fixpoint parse_scan (fuel : nat) (tokens : list Token.t) (j : nat) : nat :=
  match fuel with
  | O => j
  | S fuel' =>
      if j <? length tokens then
        if Token.Type_eqb (Token.type_ (token_at tokens j)) Token.RPAREN
        then j
        else parse_scan fuel' tokens (j + 1)
      else j
  end.

(** The [if not has_left_side: ... else: ...] that stores an operand. *)
Definition store (result : Node) (has_left_side : bool) (e : Expr)
  : Node * bool :=
  if negb has_left_side
  then (BinaryExpression.set_left result e, true)
  else (BinaryExpression.set_right result e, has_left_side).

(** The [while i < len(tokens)] loop of [parse]; the nested call of
    [parse] starts the loop again on the slice with a fresh node. *)
Fixpoint parse_while (fuel : nat) (tokens : list Token.t) (result : Node)
         (has_left_side : bool) (i : nat) : option (outcome Node) :=
  match fuel with
  | O => None
  | S fuel' =>
      if i <? length tokens then
        let token := token_at tokens i in
        match Token.type_ token with
        | Token.INTEGER =>
            match py_int (Token.text token) with
            | None => Some (Raise ValueError)
            | Some v =>
                let '(result', has_left_side') :=
                  store result has_left_side (Integer v) in
                parse_while fuel' tokens result' has_left_side' (i + 1)
            end
        | Token.PLUS =>
            parse_while fuel' tokens
              (BinaryExpression.set_type_ result BinaryExpression.ADDITION)
              has_left_side (i + 1)
        | Token.MINUS =>
            parse_while fuel' tokens
              (BinaryExpression.set_type_ result BinaryExpression.SUBTRACTION)
              has_left_side (i + 1)
        | Token.LPAREN =>
            let j := parse_scan (length tokens - i) tokens i in
            let subexpression := slice tokens (i + 1) j in
            match parse_while fuel' subexpression BinaryExpression.init false 0 with
            | None => None
            | Some (Raise e) => Some (Raise e)
            | Some (Ok element) =>
                let '(result', has_left_side') :=
                  store result has_left_side (Binary element) in
                parse_while fuel' tokens result' has_left_side' (j + 1)
            end
        | Token.RPAREN =>
            parse_while fuel' tokens result has_left_side (i + 1)
        end
      else Some (Ok result)
  end.

(** The loop of [parse] run from index [i] to the end of [tokens]. *)
Definition parse_at (tokens : list Token.t) (result : Node)
           (has_left_side : bool) (i : nat) : option (outcome Node) :=
  parse_while (S (length tokens - i)) tokens result has_left_side i.

Definition parse (tokens : list Token.t) : option (outcome Node) :=
  parse_at tokens BinaryExpression.init false 0.

(** [parsed.value] as [calc] computes it from the input string. *)
Definition calc_value (input_ : string) : option (outcome Z) :=
  match tokenize input_ with
  | None => None
  | Some tokens =>
      match parse tokens with
      | None => None
      | Some (Raise e) => Some (Raise e)
      | Some (Ok parsed) => Some (value (Binary parsed))
      end
  end.

(** ** Notions used in the statements *)

(** Every character of [s] satisfies [p]. *)
Fixpoint all_chars (p : ascii -> bool) (s : string) : bool :=
  match s with
  | EmptyString => true
  | String c s' => p c && all_chars p s'
  end.

(** The token of a character that is a token on its own. *)
Definition symbol_token (c : ascii) : option Token.t :=
  if Ascii.eqb c "+" then Some (Token.new Token.PLUS "+")
  else if Ascii.eqb c "-" then Some (Token.new Token.MINUS "-")
  else if Ascii.eqb c "(" then Some (Token.new Token.LPAREN "(")
  else if Ascii.eqb c ")" then Some (Token.new Token.RPAREN ")")
  else None.

(** The test [tokens[j].type_ == Token.Type.RPAREN]. *)
Definition is_rparen (tok : Token.t) : bool :=
  Token.Type_eqb (Token.type_ tok) Token.RPAREN.

(** The tokens in front of the first [RPAREN]. *)
Fixpoint before_rparen (tokens : list Token.t) : list Token.t :=
  match tokens with
  | [] => []
  | t :: ts => if is_rparen t then [] else t :: before_rparen ts
  end.

(** The tokens behind the first [RPAREN]; none when there is no
    [RPAREN]. *)
Fixpoint after_rparen (tokens : list Token.t) : list Token.t :=
  match tokens with
  | [] => []
  | t :: ts => if is_rparen t then ts else after_rparen ts
  end.

(** The loop of [parse] started at the front of [tokens] with the node
    [result] and the flag [has_left_side]. *)
Definition parse_from (result : Node) (has_left_side : bool)
           (tokens : list Token.t) : option (outcome Node) :=
  parse_at tokens result has_left_side 0.

(** What the flag is when it records whether the left operand is set. *)
Definition left_is_set (result : Node) : bool :=
  match BinaryExpression.left result with
  | Some _ => true
  | None => false
  end.

(** The operator a token sets, if it sets one. *)
Definition operator_of (tok : Token.t) : option BinaryExpression.Type_ :=
  match Token.type_ tok with
  | Token.PLUS => Some BinaryExpression.ADDITION
  | Token.MINUS => Some BinaryExpression.SUBTRACTION
  | _ => None
  end.

(** The operator in force after a run of tokens that started with [ty]. *)
Definition last_operator (ty : BinaryExpression.Type_)
           (tokens : list Token.t) : BinaryExpression.Type_ :=
  fold_left (fun ty tok => match operator_of tok with
                           | Some ty' => ty'
                           | None => ty
                           end) tokens ty.

(** No token of the run opens a parenthesis. *)
Definition flat (tokens : list Token.t) : bool :=
  forallb (fun tok => negb (Token.Type_eqb (Token.type_ tok) Token.LPAREN))
          tokens.

(** No token of the run starts an operand. *)
Definition no_operand (tokens : list Token.t) : bool :=
  forallb (fun tok => match Token.type_ tok with
                      | Token.INTEGER | Token.LPAREN => false
                      | _ => true
                      end) tokens.

(** [tok], followed by [rest], starts the operand [e]; the loop goes on
    with [rest']. *)
Inductive starts_operand :
  Token.t -> list Token.t -> Expr -> list Token.t -> Prop :=
| operand_integer tok rest v :
    Token.type_ tok = Token.INTEGER ->
    py_int (Token.text tok) = Some v ->
    starts_operand tok rest (Integer v) rest
| operand_group tok rest element :
    Token.type_ tok = Token.LPAREN ->
    parse (before_rparen rest) = Some (Ok element) ->
    starts_operand tok rest (Binary element) (after_rparen rest).

(** The tokens of "((1+2)-3)": the RPAREN at index 5 closes the LPAREN at
    index 0, and the LPAREN at index 1 stays inside the slice. *)
Definition nested_tokens : list Token.t :=
  [Token.new Token.LPAREN "("; Token.new Token.LPAREN "(";
   Token.new Token.INTEGER "1"; Token.new Token.PLUS "+";
   Token.new Token.INTEGER "2"; Token.new Token.RPAREN ")";
   Token.new Token.MINUS "-"; Token.new Token.INTEGER "3";
   Token.new Token.RPAREN ")"].

(** ** Notions used in the further properties *)

(** [c] is one of the four characters that are tokens on their own. *)
Definition is_symbol (c : ascii) : bool :=
  match symbol_token c with
  | Some _ => true
  | None => false
  end.

(** The last character of [s] is a symbol. *)
Fixpoint ends_with_symbol (s : string) : bool :=
  match s with
  | EmptyString => false
  | String c EmptyString => is_symbol c
  | String _ s' => ends_with_symbol s'
  end.

(** The digits in front of [s], and what follows them. *)
Fixpoint take_digits (s : string) : string :=
  match s with
  | String c s' => if isdigit c then String c (take_digits s') else EmptyString
  | EmptyString => EmptyString
  end.

Fixpoint drop_digits (s : string) : string :=
  match s with
  | String c s' => if isdigit c then drop_digits s' else s
  | EmptyString => EmptyString
  end.

(** The texts of the tokens, one after the other. *)
Fixpoint concat_texts (tokens : list Token.t) : string :=
  match tokens with
  | [] => EmptyString
  | tok :: rest => (Token.text tok ++ concat_texts rest)%string
  end.

(** A run that gives an INTEGER token: a character that is no symbol,
    then digits only. *)
Definition is_run (s : string) : bool :=
  match s with
  | EmptyString => false
  | String c ds => negb (is_symbol c) && all_chars isdigit ds
  end.

(** The shape of a token [lex] builds: a symbol token carries its own
    character, an INTEGER token carries a run. *)
Definition well_formed (tok : Token.t) : bool :=
  match Token.type_ tok with
  | Token.INTEGER => is_run (Token.text tok)
  | Token.PLUS => String.eqb (Token.text tok) "+"
  | Token.MINUS => String.eqb (Token.text tok) "-"
  | Token.LPAREN => String.eqb (Token.text tok) "("
  | Token.RPAREN => String.eqb (Token.text tok) ")"
  end.

(** What [lex] does, case by case from the front of the input. *)
Inductive lexes : string -> list Token.t -> Prop :=
| lexes_empty : lexes EmptyString []
| lexes_symbol c s tok tokens :
    symbol_token c = Some tok ->
    lexes s tokens ->
    lexes (String c s) (tok :: tokens)
| lexes_integer c ds d s tokens :
    symbol_token c = None ->
    all_chars isdigit ds = true ->
    isdigit d = false ->
    lexes (String d s) tokens ->
    lexes (String c (ds ++ String d s))
          (Token.new Token.INTEGER (String c ds) :: tokens)
| lexes_trailing c ds :
    symbol_token c = None ->
    all_chars isdigit ds = true ->
    lexes (String c ds) [].

(** Both operands are there, all the way down. *)
Fixpoint complete (e : Expr) : bool :=
  match e with
  | Integer _ => true
  | Binary (BinaryExpression.new _ l r) =>
      match l with Some x => complete x | None => false end &&
      match r with Some x => complete x | None => false end
  end.

(** [int] accepts the text of every INTEGER token. *)
Definition int_ok (tokens : list Token.t) : bool :=
  forallb (fun tok => match Token.type_ tok with
                      | Token.INTEGER =>
                          match py_int (Token.text tok) with
                          | Some _ => true
                          | None => false
                          end
                      | _ => true
                      end) tokens.

(** No token of the run closes a parenthesis. *)
Definition no_rparen (tokens : list Token.t) : bool :=
  forallb (fun tok => negb (is_rparen tok)) tokens.

(** The integers of the INTEGER tokens, in order. *)
Definition integers (tokens : list Token.t) : list Z :=
  flat_map (fun tok => match Token.type_ tok with
                       | Token.INTEGER =>
                           match py_int (Token.text tok) with
                           | Some v => [v]
                           | None => []
                           end
                       | _ => []
                       end) tokens.

(** The operator after a run of tokens, with [ty] before it. *)
Definition final_operator (ty : option BinaryExpression.Type_)
           (tokens : list Token.t) : option BinaryExpression.Type_ :=
  fold_left (fun ty tok => match operator_of tok with
                           | Some ty' => Some ty'
                           | None => ty
                           end) tokens ty.

(** What the [value] property computes from the values of the operands. *)
Definition apply_operator (ty : option BinaryExpression.Type_) (a b : Z) : Z :=
  match ty with
  | Some BinaryExpression.ADDITION => (a + b)%Z
  | _ => (a - b)%Z
  end.

(** The numeric value of a string of decimal digits, [acc] read so far. *)
Fixpoint decimal_acc (acc : Z) (s : string) : Z :=
  match s with
  | EmptyString => acc
  | String c s' => decimal_acc (10 * acc + digit_value c) s'
  end.

Definition decimal_value (s : string) : Z := decimal_acc 0 s.

(** A literal: decimal digits, at least one. *)
Definition is_literal (s : string) : bool :=
  match s with
  | EmptyString => false
  | String _ _ => all_chars isdecimal s
  end.

(** The operator an operator character stands for. *)
Definition operator_char (o : ascii) : option BinaryExpression.Type_ :=
  if Ascii.eqb o "+" then Some BinaryExpression.ADDITION
  else if Ascii.eqb o "-" then Some BinaryExpression.SUBTRACTION
  else None.

(** The input "(a o b)" followed by [rest]. *)
Definition group (a : string) (o : ascii) (b rest : string) : string :=
  String "(" (a ++ String o (b ++ String ")" rest)).

(** ** The caller: [calc] and [test_interpreter] *)

(** [Token.__str__]: the text between backquotes. *)
Definition Token_str (self : Token.t) : string :=
  ("`" ++ Token.text self ++ "`")%string.

(** [sep.join(items)]. *)
Fixpoint str_join (sep : string) (items : list string) : string :=
  match items with
  | [] => EmptyString
  | x :: rest =>
      match rest with
      | [] => x
      | _ :: _ => (x ++ sep ++ str_join sep rest)%string
      end
  end.

(** [str] of an integer, as the f-string of [calc] formats it. *)
Definition str_int (z : Z) : string := NilZero.string_of_int (Z.to_int z).

(** [calc]: lexes, prints the tokens, parses, and prints the value.  The
    value is computed before the last line is printed, so nothing of that
    line is printed when reading [.value] raises. *)
Definition calc (input_ : string) (out : console)
  : option (outcome unit) * console :=
  let '(tokens, out) := lex input_ out in
  match tokens with
  | None => (None, out)
  | Some tokens =>
      let out := out ++ [str_join " " (map Token_str tokens)] in
      match parse tokens with
      | None => (None, out)
      | Some (Raise e) => (Some (Raise e), out)
      | Some (Ok parsed) =>
          match value (Binary parsed) with
          | Raise e => (Some (Raise e), out)
          | Ok v =>
              (Some (Ok tt),
               out ++ [(input_ ++ " = " ++ str_int v)%string])
          end
      end
  end.

Definition test_interpreter (out : console)
  : option (outcome unit) * console :=
  let expression := "(2+3)-(1+3)" in
  calc expression out.

(** The characters of the documented inputs: decimal digits and the four
    symbols. *)
Definition in_alphabet (c : ascii) : bool := isdecimal c || is_symbol c.

(** * Properties *)

(** ** The lexer's loops *)

Lemma lex_while_S fuel input_ result i :
  lex_while (S fuel) input_ result i =
  if i <? String.length input_ then
    let c := char_at input_ i in
    if Ascii.eqb c "+" then
      lex_while fuel input_ (result ++ [Token.new Token.PLUS "+"]) (i + 1)
    else if Ascii.eqb c "-" then
      lex_while fuel input_ (result ++ [Token.new Token.MINUS "-"]) (i + 1)
    else if Ascii.eqb c "(" then
      lex_while fuel input_ (result ++ [Token.new Token.LPAREN "("]) (i + 1)
    else if Ascii.eqb c ")" then
      lex_while fuel input_ (result ++ [Token.new Token.RPAREN ")"]) (i + 1)
    else
      let '(i', result') :=
        lex_for input_ (seq (i + 1) (String.length input_ - (i + 1)))
                [c] i result in
      lex_while fuel input_ result' (i' + 1)
  else Some result.
Proof. reflexivity. Qed.

(** The [for] loop only moves [i] forward. *)
Lemma lex_for_index input_ range :
  forall digits i result,
    i <= fst (lex_for input_ range digits i result).
Proof.
  induction range as [|j range IH]; intros digits i result; simpl.
  - lia.
  - destruct (isdigit (char_at input_ j)); simpl.
    + specialize (IH (digits ++ [char_at input_ j]) (i + 1) result). lia.
    + lia.
Qed.

(** The [while] loop of [lex] finishes once the fuel exceeds the number of
    characters left. *)
Lemma lex_while_total fuel :
  forall input_ result i,
    String.length input_ - i < fuel ->
    exists tokens, lex_while fuel input_ result i = Some tokens.
Proof.
  induction fuel as [|fuel IH]; intros input_ result i Hfuel; [lia|].
  rewrite lex_while_S.
  destruct (i <? String.length input_) eqn:Hi; [|eauto].
  apply Nat.ltb_lt in Hi. cbv zeta.
  repeat match goal with
         | |- context [if Ascii.eqb ?a ?b then _ else _] =>
             destruct (Ascii.eqb a b); [apply IH; lia|]
         end.
  pose proof (lex_for_index input_
                (seq (i + 1) (String.length input_ - (i + 1)))
                [char_at input_ i] i result) as Hge.
  destruct (lex_for _ _ _ _ _) as [i' result']; simpl in Hge.
  apply IH; lia.
Qed.

(** More fuel does not change a finished run. *)
Lemma lex_while_more fuel :
  forall input_ result i tokens,
    lex_while fuel input_ result i = Some tokens ->
    forall fuel', fuel <= fuel' ->
    lex_while fuel' input_ result i = Some tokens.
Proof.
  induction fuel as [|fuel IH]; intros input_ result i tokens H fuel' Hle;
    [discriminate|].
  destruct fuel' as [|fuel']; [lia|].
  rewrite lex_while_S in *. cbv zeta in *.
  destruct (i <? String.length input_); [|assumption].
  repeat match goal with
         | |- context [if Ascii.eqb ?a ?b then _ else _] =>
             destruct (Ascii.eqb a b); [eapply IH; [eassumption|lia]|]
         end.
  destruct (lex_for _ _ _ _ _) as [i' result'].
  eapply IH; [eassumption|lia].
Qed.

Lemma tokenize_total input_ :
  exists tokens, tokenize input_ = Some tokens.
Proof.
  unfold tokenize, lex. cbv [fst].
  apply lex_while_total. lia.
Qed.

(** ** The lexer, read from the front of the input *)

Lemma char_at_shift a s j : char_at (String a s) (S j) = char_at s j.
Proof. reflexivity. Qed.

(** The [for] loop counts from [i] and appends to [result]; neither
    influences what it does. *)
Lemma lex_for_frame input_ range :
  forall digits i result,
    lex_for input_ range digits i result =
    (i + fst (lex_for input_ range digits 0 []),
     result ++ snd (lex_for input_ range digits 0 [])).
Proof.
  induction range as [|j range IH]; intros digits i result; simpl.
  - now rewrite Nat.add_0_r, app_nil_r.
  - destruct (isdigit (char_at input_ j)); simpl.
    + rewrite IH.
      rewrite (IH (digits ++ [char_at input_ j]) 1 []).
      simpl. f_equal. lia.
    + now rewrite Nat.add_0_r.
Qed.

Lemma lex_for_shift a s range :
  forall digits i result,
    lex_for (String a s) (map S range) digits i result =
    lex_for s range digits i result.
Proof.
  induction range as [|j range IH]; intros digits i result; simpl; [easy|].
  rewrite char_at_shift.
  destruct (isdigit (char_at s j)); [apply IH|reflexivity].
Qed.

Lemma lex_while_shift fuel :
  forall a s result i,
    lex_while fuel (String a s) result (S i) = lex_while fuel s result i.
Proof.
  induction fuel as [|fuel IH]; intros a s result i; [reflexivity|].
  rewrite !lex_while_S. cbv zeta.
  change (S i <? String.length (String a s)) with (i <? String.length s).
  rewrite char_at_shift.
  change (S i + 1) with (S (i + 1)).
  destruct (i <? String.length s); [|reflexivity].
  repeat match goal with
         | |- context [if Ascii.eqb ?x ?y then _ else _] =>
             destruct (Ascii.eqb x y); [apply IH|]
         end.
  change (String.length (String a s) - S (i + 1))
    with (String.length s - (i + 1)).
  rewrite <- seq_shift, lex_for_shift.
  rewrite (lex_for_frame s _ _ (S i)), (lex_for_frame s _ _ i).
  change (S i + ?k + 1) with (S (i + k + 1)).
  apply IH.
Qed.

Lemma lex_while_skip fuel (pre : string) :
  forall s result i,
    lex_while fuel (pre ++ s)%string result (String.length pre + i) =
    lex_while fuel s result i.
Proof.
  induction pre as [|a pre IH]; intros s result i; simpl; [reflexivity|].
  rewrite lex_while_shift. apply IH.
Qed.

(** The tokens already in [result] stay in front of the new ones. *)
Lemma lex_while_frame fuel :
  forall input_ result i,
    lex_while fuel input_ result i =
    option_map (app result) (lex_while fuel input_ [] i).
Proof.
  induction fuel as [|fuel IH]; intros input_ result i; [reflexivity|].
  rewrite !lex_while_S. cbv zeta.
  destruct (i <? String.length input_);
    [|simpl; now rewrite app_nil_r].
  repeat match goal with
         | |- context [if Ascii.eqb ?x ?y then _ else _] =>
             destruct (Ascii.eqb x y);
             [rewrite IH, (IH _ ([] ++ _)); simpl;
              destruct (lex_while fuel input_ [] (i + 1)); simpl;
              [now rewrite <- app_assoc|reflexivity] |]
         end.
  rewrite (lex_for_frame _ _ _ i result), (lex_for_frame _ _ _ i []).
  rewrite IH, (IH _ ([] ++ _)). simpl.
  destruct (lex_while fuel input_ [] _); simpl;
    [now rewrite <- app_assoc|reflexivity].
Qed.

(** Any fuel above the number of characters left gives the same run. *)
Lemma lex_while_enough fuel fuel' input_ result i :
  String.length input_ - i < fuel ->
  String.length input_ - i < fuel' ->
  lex_while fuel input_ result i = lex_while fuel' input_ result i.
Proof.
  intros H H'.
  destruct (lex_while_total (S (String.length input_ - i)) input_ result i)
    as [tokens Htok]; [lia|].
  rewrite (lex_while_more _ _ _ _ _ Htok fuel) by lia.
  rewrite (lex_while_more _ _ _ _ _ Htok fuel') by lia.
  reflexivity.
Qed.

Lemma tokenize_unfold input_ :
  tokenize input_ = lex_while (S (String.length input_)) input_ [] 0.
Proof. reflexivity. Qed.

Lemma tokenize_empty : tokenize "" = Some [].
Proof. reflexivity. Qed.

(** A symbol in front gives its token, then the tokens of the rest. *)
Lemma tokenize_symbol c s tok :
  symbol_token c = Some tok ->
  tokenize (String c s) = option_map (cons tok) (tokenize s).
Proof.
  intros Hc. rewrite !tokenize_unfold, lex_while_S. cbv zeta.
  change (0 <? String.length (String c s)) with true. cbv iota.
  change (char_at (String c s) 0) with c.
  unfold symbol_token in Hc.
  repeat match goal with
         | |- context [if Ascii.eqb ?x ?y then _ else _] =>
             destruct (Ascii.eqb x y);
             [injection Hc as <-;
              change (0 + 1) with 1; rewrite lex_while_shift;
              rewrite lex_while_frame; reflexivity |]
         end.
  discriminate.
Qed.

(** The [for] loop on digits followed by a character that is not one. *)
Lemma lex_for_digits ds :
  forall digits d s,
    all_chars isdigit ds = true ->
    isdigit d = false ->
    lex_for (ds ++ String d s)%string
            (seq 0 (String.length (ds ++ String d s)%string)) digits 0 [] =
    (String.length ds,
     [Token.new Token.INTEGER (join (digits ++ list_ascii_of_string ds))]).
Proof.
  induction ds as [|x ds IH]; intros digits d s Hds Hd.
  - simpl. change (char_at (String d s) 0) with d. rewrite Hd.
    now rewrite app_nil_r.
  - simpl in Hds. apply andb_true_iff in Hds as [Hx Hds].
    cbn [append String.length seq lex_for].
    change (char_at (String x _) 0) with x. rewrite Hx.
    rewrite <- seq_shift, lex_for_shift, lex_for_frame.
    rewrite (IH _ d s Hds Hd). simpl.
    now rewrite <- app_assoc.
Qed.

(** The [for] loop on digits that reach the end of the input. *)
Lemma lex_for_digits_end ds :
  forall digits,
    all_chars isdigit ds = true ->
    lex_for ds (seq 0 (String.length ds)) digits 0 [] =
    (String.length ds, []).
Proof.
  induction ds as [|x ds IH]; intros digits Hds; [reflexivity|].
  simpl in Hds. apply andb_true_iff in Hds as [Hx Hds].
  cbn [String.length seq lex_for].
  change (char_at (String x _) 0) with x. rewrite Hx.
  rewrite <- seq_shift, lex_for_shift, lex_for_frame.
  now rewrite (IH _ Hds).
Qed.

Lemma length_append (a b : string) :
  String.length (a ++ b)%string = String.length a + String.length b.
Proof. induction a as [|x a IH]; simpl; [reflexivity|now rewrite IH]. Qed.

(** A character that is no symbol, the digits after it and a character
    that is no digit: one INTEGER token, and lexing goes on at the
    character that stopped the digits. *)
Lemma tokenize_integer c ds d s :
  symbol_token c = None ->
  all_chars isdigit ds = true ->
  isdigit d = false ->
  tokenize (String c (ds ++ String d s)) =
  option_map (cons (Token.new Token.INTEGER (String c ds)))
             (tokenize (String d s)).
Proof.
  intros Hc Hds Hd. rewrite !tokenize_unfold, lex_while_S. cbv zeta.
  change (0 <? String.length (String c (ds ++ String d s))) with true.
  cbv iota.
  change (char_at (String c (ds ++ String d s)) 0) with c.
  unfold symbol_token in Hc.
  repeat match goal with
         | |- context [if Ascii.eqb ?x ?y then _ else _] =>
             destruct (Ascii.eqb x y); [discriminate|]
         end.
  change (0 + 1) with 1.
  change (String.length (String c (ds ++ String d s)) - 1)
    with (String.length (ds ++ String d s) - 0).
  rewrite Nat.sub_0_r, <- seq_shift, lex_for_shift.
  rewrite (lex_for_digits ds [c] d s Hds Hd).
  cbn [app]. unfold join. cbn [string_of_list_ascii].
  rewrite string_of_list_ascii_of_string.
  rewrite Nat.add_1_r, lex_while_shift.
  rewrite <- (Nat.add_0_r (String.length ds)), lex_while_skip.
  rewrite lex_while_frame.
  rewrite (lex_while_enough _ (S (String.length (String d s))))
    by (cbn [String.length]; rewrite ?length_append; cbn [String.length]; lia).
  reflexivity.
Qed.

(** A character that is no symbol and digits up to the end of the input:
    no token at all. *)
Lemma tokenize_trailing c ds :
  symbol_token c = None ->
  all_chars isdigit ds = true ->
  tokenize (String c ds) = Some [].
Proof.
  intros Hc Hds. rewrite tokenize_unfold, lex_while_S. cbv zeta.
  change (0 <? String.length (String c ds)) with true. cbv iota.
  change (char_at (String c ds) 0) with c.
  unfold symbol_token in Hc.
  repeat match goal with
         | |- context [if Ascii.eqb ?x ?y then _ else _] =>
             destruct (Ascii.eqb x y); [discriminate|]
         end.
  change (0 + 1) with 1.
  change (String.length (String c ds) - 1) with (String.length ds - 0).
  rewrite Nat.sub_0_r, <- seq_shift, lex_for_shift.
  rewrite (lex_for_digits_end ds [c] Hds).
  rewrite Nat.add_1_r, lex_while_shift.
  change (String.length (String c ds)) with (S (String.length ds)).
  now rewrite lex_while_S, Nat.ltb_irrefl.
Qed.

(** ** The parser's loops *)

Lemma is_rparen_iff tok :
  is_rparen tok = true <-> Token.type_ tok = Token.RPAREN.
Proof.
  unfold is_rparen. destruct (Token.type_ tok); simpl; split;
    congruence.
Qed.

Lemma parse_while_S fuel tokens result has_left_side i :
  parse_while (S fuel) tokens result has_left_side i =
  if i <? length tokens then
    let token := token_at tokens i in
    match Token.type_ token with
    | Token.INTEGER =>
        match py_int (Token.text token) with
        | None => Some (Raise ValueError)
        | Some v =>
            let '(result', has_left_side') :=
              store result has_left_side (Integer v) in
            parse_while fuel tokens result' has_left_side' (i + 1)
        end
    | Token.PLUS =>
        parse_while fuel tokens
          (BinaryExpression.set_type_ result BinaryExpression.ADDITION)
          has_left_side (i + 1)
    | Token.MINUS =>
        parse_while fuel tokens
          (BinaryExpression.set_type_ result BinaryExpression.SUBTRACTION)
          has_left_side (i + 1)
    | Token.LPAREN =>
        let j := parse_scan (length tokens - i) tokens i in
        let subexpression := slice tokens (i + 1) j in
        match parse_while fuel subexpression BinaryExpression.init false 0 with
        | None => None
        | Some (Raise e) => Some (Raise e)
        | Some (Ok element) =>
            let '(result', has_left_side') :=
              store result has_left_side (Binary element) in
            parse_while fuel tokens result' has_left_side' (j + 1)
        end
    | Token.RPAREN =>
        parse_while fuel tokens result has_left_side (i + 1)
    end
  else Some (Ok result).
Proof. reflexivity. Qed.

(** The scan for [RPAREN] only moves forward. *)
Lemma parse_scan_ge fuel :
  forall tokens j, j <= parse_scan fuel tokens j.
Proof.
  induction fuel as [|fuel IH]; intros tokens j; simpl; [lia|].
  destruct (j <? length tokens); [|lia].
  destruct (Token.Type_eqb _ _); [lia|].
  specialize (IH tokens (j + 1)). lia.
Qed.


(** With no closing parenthesis from [j] on, the scan runs to the end. *)
Lemma parse_scan_none fuel :
  forall tokens j,
    j <= length tokens -> length tokens - j <= fuel ->
    (forall k, j <= k < length tokens ->
               is_rparen (token_at tokens k) = false) ->
    parse_scan fuel tokens j = length tokens.
Proof.
  induction fuel as [|fuel IH]; intros tokens j Hj Hfuel Hnone.
  - simpl. lia.
  - simpl. destruct (j <? length tokens) eqn:Hlt.
    + apply Nat.ltb_lt in Hlt.
      fold (is_rparen (token_at tokens j)).
      rewrite Hnone by lia.
      apply IH; try lia.
      intros k Hk. apply Hnone. lia.
    + apply Nat.ltb_ge in Hlt. lia.
Qed.

Lemma slice_length tokens a b :
  length (slice tokens a b) <= length tokens - a.
Proof.
  unfold slice. rewrite length_firstn, length_skipn. lia.
Qed.

Lemma store_flag result has_left_side e :
  snd (store result has_left_side e) = true.
Proof. unfold store. now destruct has_left_side. Qed.

(** The [while] loop of [parse] finishes once the fuel exceeds the number
    of tokens left: the nested call works on a shorter list. *)
Lemma parse_while_total fuel :
  forall tokens result has_left_side i,
    length tokens - i < fuel ->
    exists r, parse_while fuel tokens result has_left_side i = Some r.
Proof.
  induction fuel as [|fuel IH];
    intros tokens result has_left_side i Hfuel; [lia|].
  rewrite parse_while_S.
  destruct (i <? length tokens) eqn:Hi; [|eauto].
  apply Nat.ltb_lt in Hi. cbv zeta.
  destruct (Token.type_ (token_at tokens i)).
  - destruct (py_int _); [|eauto].
    destruct (store _ _ _). apply IH. lia.
  - apply IH. lia.
  - apply IH. lia.
  - set (j := parse_scan (length tokens - i) tokens i).
    assert (Hj : i <= j) by apply parse_scan_ge.
    destruct (IH (slice tokens (i + 1) j) BinaryExpression.init false 0)
      as [r Hr].
    { pose proof (slice_length tokens (i + 1) j). lia. }
    rewrite Hr. destruct r as [element|e]; [|eauto].
    destruct (store _ _ _). apply IH. lia.
  - apply IH. lia.
Qed.

(** More fuel does not change a finished run. *)
Lemma parse_while_more fuel :
  forall tokens result has_left_side i r,
    parse_while fuel tokens result has_left_side i = Some r ->
    forall fuel', fuel <= fuel' ->
    parse_while fuel' tokens result has_left_side i = Some r.
Proof.
  induction fuel as [|fuel IH];
    intros tokens result has_left_side i r H fuel' Hle; [discriminate|].
  destruct fuel' as [|fuel']; [lia|].
  rewrite parse_while_S in *. cbv zeta in *.
  destruct (i <? length tokens); [|assumption].
  destruct (Token.type_ (token_at tokens i)).
  - destruct (py_int _); [|assumption].
    destruct (store _ _ _). eapply IH; [eassumption|lia].
  - eapply IH; [eassumption|lia].
  - eapply IH; [eassumption|lia].
  - destruct (parse_while fuel (slice _ _ _) _ _ _) as [sub|] eqn:Hsub;
      [|discriminate].
    rewrite (IH _ _ _ _ _ Hsub fuel') by lia.
    destruct sub as [element|e]; [|assumption].
    destruct (store _ _ _). eapply IH; [eassumption|lia].
  - eapply IH; [eassumption|lia].
Qed.

(** Any fuel above the number of tokens left runs the loop to its end. *)
Lemma parse_while_enough fuel tokens result has_left_side i :
  length tokens - i < fuel ->
  parse_while fuel tokens result has_left_side i =
  parse_at tokens result has_left_side i.
Proof.
  intros H. unfold parse_at.
  destruct (parse_while_total (S (length tokens - i)) tokens result
              has_left_side i) as [r Hr]; [lia|].
  rewrite Hr. eapply parse_while_more; [eassumption|lia].
Qed.

Lemma parse_at_total tokens result has_left_side i :
  exists r, parse_at tokens result has_left_side i = Some r.
Proof. apply parse_while_total. lia. Qed.

Lemma parse_total tokens : exists r, parse tokens = Some r.
Proof. apply parse_at_total. Qed.

(** One turn of the [while] loop of [parse], with both recursive uses run
    to their end. *)
Lemma parse_at_unfold tokens result has_left_side i :
  parse_at tokens result has_left_side i =
  if i <? length tokens then
    let token := token_at tokens i in
    match Token.type_ token with
    | Token.INTEGER =>
        match py_int (Token.text token) with
        | None => Some (Raise ValueError)
        | Some v =>
            let '(result', has_left_side') :=
              store result has_left_side (Integer v) in
            parse_at tokens result' has_left_side' (i + 1)
        end
    | Token.PLUS =>
        parse_at tokens
          (BinaryExpression.set_type_ result BinaryExpression.ADDITION)
          has_left_side (i + 1)
    | Token.MINUS =>
        parse_at tokens
          (BinaryExpression.set_type_ result BinaryExpression.SUBTRACTION)
          has_left_side (i + 1)
    | Token.LPAREN =>
        let j := parse_scan (length tokens - i) tokens i in
        match parse (slice tokens (i + 1) j) with
        | None => None
        | Some (Raise e) => Some (Raise e)
        | Some (Ok element) =>
            let '(result', has_left_side') :=
              store result has_left_side (Binary element) in
            parse_at tokens result' has_left_side' (j + 1)
        end
    | Token.RPAREN =>
        parse_at tokens result has_left_side (i + 1)
    end
  else Some (Ok result).
Proof.
  unfold parse_at at 1. rewrite parse_while_S.
  destruct (i <? length tokens) eqn:Hi; [|reflexivity].
  apply Nat.ltb_lt in Hi. cbv zeta.
  destruct (Token.type_ (token_at tokens i)).
  - destruct (py_int _); [|reflexivity].
    destruct (store _ _ _). apply parse_while_enough. lia.
  - apply parse_while_enough. lia.
  - apply parse_while_enough. lia.
  - set (j := parse_scan (length tokens - i) tokens i).
    assert (Hj : i <= j) by apply parse_scan_ge.
    unfold parse. rewrite parse_while_enough
      by (pose proof (slice_length tokens (i + 1) j); lia).
    destruct (parse_at (slice _ _ _) _ _ _) as [[element|e]|];
      try reflexivity.
    destruct (store _ _ _). apply parse_while_enough. lia.
  - apply parse_while_enough. lia.
Qed.

Lemma parse_at_end tokens result has_left_side i :
  length tokens <= i ->
  parse_at tokens result has_left_side i = Some (Ok result).
Proof.
  intros H. rewrite parse_at_unfold.
  now replace (i <? length tokens) with false
    by (symmetry; apply Nat.ltb_ge; lia).
Qed.

(** The flag and the left operand stay in step when an operand is
    stored; setting the operator touches neither. *)
Lemma store_left_is_set result has_left_side e :
  has_left_side = left_is_set result ->
  snd (store result has_left_side e) =
  left_is_set (fst (store result has_left_side e)).
Proof.
  unfold store, left_is_set. intros ->.
  destruct (BinaryExpression.left result) eqn:Hleft; simpl;
    [now rewrite Hleft|reflexivity].
Qed.

(** An LPAREN with no RPAREN behind it: the slice is the rest of the
    tokens and the loop ends after the operand is stored. *)
Lemma parse_lparen_unclosed tokens result has_left_side i :
  i < length tokens ->
  Token.type_ (token_at tokens i) = Token.LPAREN ->
  (forall k, i < k < length tokens ->
             Token.type_ (token_at tokens k) <> Token.RPAREN) ->
  exists sub,
    parse (slice tokens (i + 1) (length tokens)) = Some sub /\
    parse_at tokens result has_left_side i =
    match sub with
    | Raise e => Some (Raise e)
    | Ok element =>
        Some (Ok (fst (store result has_left_side (Binary element))))
    end.
Proof.
  intros Hi Hopen Hnone.
  destruct (parse_total (slice tokens (i + 1) (length tokens)))
    as [sub Hsub].
  exists sub. split; [exact Hsub|].
  rewrite parse_at_unfold.
  replace (i <? length tokens) with true
    by (symmetry; apply Nat.ltb_lt; lia).
  cbv zeta. rewrite Hopen.
  rewrite (parse_scan_none _ tokens i); try lia.
  - rewrite Hsub. destruct sub as [element|e]; [|reflexivity].
    destruct (store _ _ _) as [r h]. apply parse_at_end. lia.
  - intros k Hk. destruct (Nat.eq_dec k i) as [->|Hne].
    + unfold is_rparen. now rewrite Hopen.
    + destruct (is_rparen (token_at tokens k)) eqn:Hr; [|reflexivity].
      apply is_rparen_iff in Hr. exfalso.
      apply (Hnone k); [lia|assumption].
Qed.

(** ** The parser, read from the front of the token list *)

Lemma token_at_shift t tokens i :
  token_at (t :: tokens) (S i) = token_at tokens i.
Proof. reflexivity. Qed.

Lemma parse_scan_shift fuel :
  forall t tokens j,
    parse_scan fuel (t :: tokens) (S j) = S (parse_scan fuel tokens j).
Proof.
  induction fuel as [|fuel IH]; intros t tokens j; [reflexivity|].
  cbn [parse_scan]. rewrite token_at_shift.
  change (S j <? length (t :: tokens)) with (j <? length tokens).
  destruct (j <? length tokens); [|reflexivity].
  destruct (Token.Type_eqb _ _); [reflexivity|].
  change (S j + 1) with (S (j + 1)). apply IH.
Qed.

Lemma slice_shift t tokens a b :
  slice (t :: tokens) (S a) (S b) = slice tokens a b.
Proof. reflexivity. Qed.

(** The loop looks only at the tokens from [i] on. *)
Lemma parse_while_shift fuel :
  forall t tokens result has_left_side i,
    parse_while fuel (t :: tokens) result has_left_side (S i) =
    parse_while fuel tokens result has_left_side i.
Proof.
  induction fuel as [|fuel IH]; intros t tokens result has_left_side i;
    [reflexivity|].
  rewrite !parse_while_S. cbv zeta.
  change (S i <? length (t :: tokens)) with (i <? length tokens).
  rewrite token_at_shift.
  change (S i + 1) with (S (i + 1)).
  change (length (t :: tokens) - S i) with (length tokens - i).
  destruct (i <? length tokens); [|reflexivity].
  destruct (Token.type_ (token_at tokens i)); try apply IH.
  - destruct (py_int _); [|reflexivity].
    destruct (store _ _ _). apply IH.
  - rewrite parse_scan_shift, slice_shift.
    destruct (parse_while fuel (slice _ _ _) _ _ _) as [[element|e]|];
      try reflexivity.
    destruct (store _ _ _).
    change (S ?j + 1) with (S (j + 1)). apply IH.
Qed.

Lemma parse_at_shift t tokens result has_left_side i :
  parse_at (t :: tokens) result has_left_side (S i) =
  parse_at tokens result has_left_side i.
Proof. unfold parse_at. simpl length. simpl Nat.sub. apply parse_while_shift. Qed.

Lemma parse_at_skip pre :
  forall tokens result has_left_side i,
    parse_at (pre ++ tokens) result has_left_side (length pre + i) =
    parse_at tokens result has_left_side i.
Proof.
  induction pre as [|t pre IH]; intros tokens result has_left_side i;
    [reflexivity|].
  simpl. rewrite parse_at_shift. apply IH.
Qed.

Lemma parse_scan_before tokens :
  forall fuel,
    length tokens <= fuel ->
    parse_scan fuel tokens 0 = length (before_rparen tokens).
Proof.
  induction tokens as [|t ts IH]; intros fuel Hfuel.
  - destruct fuel; reflexivity.
  - destruct fuel as [|fuel]; [simpl in Hfuel; lia|].
    cbn [parse_scan before_rparen]. change (0 <? length (t :: ts)) with true.
    cbv iota. change (token_at (t :: ts) 0) with t.
    fold (is_rparen t). destruct (is_rparen t); [reflexivity|].
    change (0 + 1) with 1. rewrite parse_scan_shift, IH; [reflexivity|].
    simpl in Hfuel. lia.
Qed.

Lemma firstn_before_rparen tokens :
  firstn (length (before_rparen tokens)) tokens = before_rparen tokens.
Proof.
  induction tokens as [|t ts IH]; [reflexivity|].
  simpl. destruct (is_rparen t); [reflexivity|].
  simpl. now rewrite IH.
Qed.

Lemma skipn_after_rparen tokens :
  skipn (S (length (before_rparen tokens))) tokens = after_rparen tokens.
Proof.
  induction tokens as [|t ts IH]; [reflexivity|].
  cbn [before_rparen after_rparen]. destruct (is_rparen t); [reflexivity|].
  cbn [length]. rewrite <- IH. reflexivity.
Qed.

Lemma before_rparen_length tokens :
  length (before_rparen tokens) <= length tokens.
Proof.
  induction tokens as [|t ts IH]; simpl; [lia|].
  destruct (is_rparen t); simpl; lia.
Qed.

Lemma after_rparen_length tokens :
  length (after_rparen tokens) <= length tokens.
Proof.
  induction tokens as [|t ts IH]; simpl; [lia|].
  destruct (is_rparen t); simpl; lia.
Qed.

Lemma parse_is_parse_from tokens :
  parse tokens = parse_from BinaryExpression.init false tokens.
Proof. reflexivity. Qed.

Lemma parse_at_from tokens result has_left_side i :
  parse_at tokens result has_left_side i =
  parse_from result has_left_side (skipn i tokens).
Proof.
  unfold parse_from.
  destruct (Nat.le_gt_cases i (length tokens)) as [Hle|Hgt].
  - pose proof (parse_at_skip (firstn i tokens) (skipn i tokens) result
                  has_left_side 0) as H.
    rewrite firstn_skipn, length_firstn in H.
    now replace (Nat.min i (length tokens) + 0) with i in H by lia.
  - rewrite skipn_all2 by lia.
    now rewrite !parse_at_end by (simpl; lia).
Qed.

Lemma parse_from_nil result has_left_side :
  parse_from result has_left_side [] = Some (Ok result).
Proof. reflexivity. Qed.

Lemma parse_from_cons result has_left_side tok rest :
  parse_from result has_left_side (tok :: rest) =
  match Token.type_ tok with
  | Token.INTEGER =>
      match py_int (Token.text tok) with
      | None => Some (Raise ValueError)
      | Some v =>
          parse_from (fst (store result has_left_side (Integer v))) true rest
      end
  | Token.PLUS =>
      parse_from
        (BinaryExpression.set_type_ result BinaryExpression.ADDITION)
        has_left_side rest
  | Token.MINUS =>
      parse_from
        (BinaryExpression.set_type_ result BinaryExpression.SUBTRACTION)
        has_left_side rest
  | Token.LPAREN =>
      match parse (before_rparen rest) with
      | None => None
      | Some (Raise e) => Some (Raise e)
      | Some (Ok element) =>
          parse_from (fst (store result has_left_side (Binary element)))
                     true (after_rparen rest)
      end
  | Token.RPAREN => parse_from result has_left_side rest
  end.
Proof.
  unfold parse_from at 1. rewrite parse_at_unfold.
  change (0 <? length (tok :: rest)) with true. cbv iota zeta.
  change (token_at (tok :: rest) 0) with tok.
  change (0 + 1) with 1.
  destruct (Token.type_ tok) eqn:Hty.
  - destruct (py_int _); [|reflexivity].
    pose proof (store_flag result has_left_side (Integer z)) as Hflag.
    destruct (store _ _ _) as [r h]; simpl in *; subst h.
    apply parse_at_shift.
  - apply parse_at_shift.
  - apply parse_at_shift.
  - change (length (tok :: rest) - 0) with (S (length rest)).
    cbn [parse_scan]. change (0 <? length (tok :: rest)) with true.
    cbv iota. change (token_at (tok :: rest) 0) with tok. rewrite Hty.
    cbn [Token.Type_eqb]. change (0 + 1) with 1.
    rewrite parse_scan_shift, parse_scan_before by lia.
    rewrite slice_shift. unfold slice. rewrite Nat.sub_0_r.
    cbn [skipn]. rewrite firstn_before_rparen.
    destruct (parse (before_rparen rest)) as [[element|e]|]; try reflexivity.
    pose proof (store_flag result has_left_side (Binary element)) as Hflag.
    destruct (store _ _ _) as [r h]; simpl in *; subst h.
    rewrite Nat.add_1_r, parse_at_shift, parse_at_from.
    now rewrite skipn_after_rparen.
  - apply parse_at_shift.
Qed.

(** ** Operands and operators of the returned node *)

Lemma parse_from_operand result has_left_side tok rest e rest' :
  starts_operand tok rest e rest' ->
  parse_from result has_left_side (tok :: rest) =
  parse_from (fst (store result has_left_side e)) true rest'.
Proof.
  intros [tok0 rest0 v Hty Hint|tok0 rest0 element Hty Hsub];
    rewrite parse_from_cons, Hty.
  - now rewrite Hint.
  - now rewrite Hsub.
Qed.

(** Once the flag is set the left operand stays as it is. *)
Lemma parse_from_left_kept n :
  forall tokens result node,
    length tokens <= n ->
    parse_from result true tokens = Some (Ok node) ->
    BinaryExpression.left node = BinaryExpression.left result.
Proof.
  induction n as [|n IH]; intros tokens result node Hlen Hrun.
  - destruct tokens; [|simpl in Hlen; lia].
    rewrite parse_from_nil in Hrun. now inversion Hrun.
  - destruct tokens as [|tok rest].
    { rewrite parse_from_nil in Hrun. now inversion Hrun. }
    simpl in Hlen. rewrite parse_from_cons in Hrun.
    destruct (Token.type_ tok).
    + destruct (py_int _); [|discriminate].
      apply IH in Hrun; [exact Hrun|lia].
    + apply IH in Hrun; [exact Hrun|lia].
    + apply IH in Hrun; [exact Hrun|lia].
    + destruct (parse (before_rparen rest)) as [[element|e]|];
        try discriminate.
      apply IH in Hrun; [exact Hrun|].
      pose proof (after_rparen_length rest). lia.
    + apply IH in Hrun; [exact Hrun|lia].
Qed.

(** Tokens that start no operand leave both operands as they are. *)
Lemma parse_from_no_operand tokens :
  forall result has_left_side node,
    no_operand tokens = true ->
    parse_from result has_left_side tokens = Some (Ok node) ->
    BinaryExpression.left node = BinaryExpression.left result /\
    BinaryExpression.right node = BinaryExpression.right result.
Proof.
  induction tokens as [|tok rest IH];
    intros result has_left_side node Hno Hrun.
  - rewrite parse_from_nil in Hrun. now inversion Hrun.
  - simpl in Hno. apply andb_true_iff in Hno as [Htok Hrest].
    rewrite parse_from_cons in Hrun.
    destruct (Token.type_ tok); try discriminate;
      apply IH in Hrun; assumption.
Qed.

(** In a flat run the operator of the returned node is the one set
    last. *)
Lemma parse_from_flat_operator tokens :
  forall result has_left_side ty node,
    flat tokens = true ->
    BinaryExpression.type_ result = Some ty ->
    parse_from result has_left_side tokens = Some (Ok node) ->
    BinaryExpression.type_ node = Some (last_operator ty tokens).
Proof.
  induction tokens as [|tok rest IH];
    intros result has_left_side ty node Hflat Hty Hrun.
  - rewrite parse_from_nil in Hrun. now inversion Hrun; subst.
  - simpl in Hflat. apply andb_true_iff in Hflat as [Htok Hrest].
    rewrite parse_from_cons in Hrun.
    unfold last_operator. cbn [fold_left]. unfold operator_of at 2.
    destruct (Token.type_ tok); try discriminate.
    + destruct (py_int _); [|discriminate].
      eapply IH in Hrun; [exact Hrun|assumption|].
      unfold store. destruct has_left_side; exact Hty.
    + eapply IH in Hrun; [exact Hrun|assumption|reflexivity].
    + eapply IH in Hrun; [exact Hrun|assumption|reflexivity].
    + eapply IH in Hrun; [exact Hrun|assumption|assumption].
Qed.

(** ** Two literals and one operator, in general *)

Lemma isdecimal_isdigit c : isdecimal c = true -> isdigit c = true.
Proof. unfold isdecimal, isdigit. cbv zeta. now intros ->. Qed.

Lemma isdecimal_no_symbol c : isdecimal c = true -> symbol_token c = None.
Proof.
  destruct c as [[] [] [] [] [] [] [] []]; intros H;
    try discriminate H; reflexivity.
Qed.

Lemma all_decimal_all_digit s :
  all_chars isdecimal s = true -> all_chars isdigit s = true.
Proof.
  induction s as [|c s IH]; simpl; [easy|].
  intros H. apply andb_true_iff in H as [Hc Hs].
  now rewrite (isdecimal_isdigit c Hc), IH.
Qed.

Lemma int_digits_decimals s :
  forall acc,
    all_chars isdecimal s = true ->
    exists v, int_digits AfterDigit acc (list_ascii_of_string s) = Some v.
Proof.
  induction s as [|c s IH]; intros acc H; simpl in *; [eauto|].
  apply andb_true_iff in H as [Hc Hs]. rewrite Hc. now apply IH.
Qed.

(** [int] accepts every string of decimal digits that is not empty. *)
Lemma py_int_decimals c s :
  isdecimal c = true ->
  all_chars isdecimal s = true ->
  exists v, py_int (String c s) = Some v.
Proof.
  intros Hc Hs. unfold py_int. cbn [list_ascii_of_string lstrip].
  assert (Hsp : int_space c = false)
    by (destruct c as [[] [] [] [] [] [] [] []];
        try discriminate Hc; reflexivity).
  rewrite Hsp.
  assert (Hgo : exists v,
             int_digits AtStart 0 (c :: list_ascii_of_string s) = Some v).
  { cbn [int_digits]. rewrite Hc. now apply int_digits_decimals. }
  destruct c as [[] [] [] [] [] [] [] []]; try discriminate Hc; exact Hgo.
Qed.

(** For every two literals of decimal digits joined by "+" or "-", the
    second literal gives no token and reading [.value] raises. *)
Lemma calc_value_two_literals c ds c' ds' op :
  isdecimal c = true -> all_chars isdecimal ds = true ->
  isdecimal c' = true -> all_chars isdecimal ds' = true ->
  op = "+"%char \/ op = "-"%char ->
  exists tok,
    tokenize (String c ds ++ String op (String c' ds')) =
      Some [Token.new Token.INTEGER (String c ds); tok] /\
    calc_value (String c ds ++ String op (String c' ds')) =
      Some (Raise AttributeError).
Proof.
  intros Hc Hds Hc' Hds' Hop.
  assert (Htoks : exists tok ty,
             operator_of tok = Some ty /\
             tokenize (String c ds ++ String op (String c' ds')) =
             Some [Token.new Token.INTEGER (String c ds); tok]).
  { assert (Hsym : exists tok ty,
               symbol_token op = Some tok /\ operator_of tok = Some ty /\
               isdigit op = false)
      by (destruct Hop as [->| ->]; do 2 eexists; repeat split).
    destruct Hsym as (tok & ty & Hsym & Hty & Hnd).
    exists tok, ty. split; [exact Hty|].
    cbn [append].
    rewrite tokenize_integer;
      auto using isdecimal_no_symbol, all_decimal_all_digit.
    rewrite (tokenize_symbol op _ tok Hsym).
    rewrite tokenize_trailing;
      auto using isdecimal_no_symbol, all_decimal_all_digit. }
  destruct Htoks as (tok & ty & Hty & Htoks).
  exists tok. split; [exact Htoks|].
  unfold calc_value. rewrite Htoks.
  destruct (py_int_decimals c ds Hc Hds) as [v Hv].
  rewrite parse_is_parse_from, parse_from_cons.
  cbn [Token.type_ Token.text]. rewrite Hv.
  rewrite parse_from_cons, parse_from_nil.
  unfold operator_of in Hty.
  destruct (Token.type_ tok); try discriminate; reflexivity.
Qed.

(** ** Evaluation by completeness *)

(** Reading [.value] returns an integer on a tree with both operands set
    at every node, and raises [AttributeError] on any other tree. *)
Lemma value_by_completeness :
  forall e,
    (complete e = true -> exists v, value e = Ok v) /\
    (complete e = false -> value e = Raise AttributeError).
Proof.
  fix IH 1. intros [v|[ty l r]].
  - split; [intros _; now exists v|discriminate].
  - cbn [complete value].
    destruct l as [l|].
    + destruct (IH l) as [Hl1 Hl2].
      destruct (complete l).
      * destruct (Hl1 eq_refl) as [a ->].
        destruct r as [r|].
        -- destruct (IH r) as [Hr1 Hr2].
           destruct (complete r).
           ++ destruct (Hr1 eq_refl) as [b ->].
              split; [|discriminate].
              intros _. destruct ty as [[]|]; simpl; eauto.
           ++ rewrite (Hr2 eq_refl).
              split; [discriminate|].
              intros _. now destruct ty as [[]|].
        -- split; [discriminate|].
           intros _. now destruct ty as [[]|].
      * rewrite (Hl2 eq_refl).
        split; [discriminate|].
        intros _. now destruct ty as [[]|].
    + split; [discriminate|].
      intros _. now destruct ty as [[]|].
Qed.

(** * The claims *)

(** C1.  The claim: [tokenize "2+3"] is INTEGER "2", PLUS "+",
    INTEGER "3".  On the code the digit that ends the input is collected
    by the [for] loop, which then runs out without appending a token: the
    result has two tokens only. *)
Theorem tokenize_2_plus_3 :
  tokenize "2+3" =
  Some [Token.new Token.INTEGER "2"; Token.new Token.PLUS "+"].
Proof. reflexivity. Qed.

(** C2.  The claim: for two integer literals joined by one operator,
    evaluating the parsed tokens gives the arithmetic result, 5 for
    "2+3".  On the code the second literal is never turned into a token,
    the node keeps [right = None], and reading [.value] raises
    [AttributeError]. *)
Theorem calc_value_2_plus_3 :
  tokenize "2+3" =
    Some [Token.new Token.INTEGER "2"; Token.new Token.PLUS "+"] /\
  parse [Token.new Token.INTEGER "2"; Token.new Token.PLUS "+"] =
    Some (Ok (BinaryExpression.new (Some BinaryExpression.ADDITION)
                                   (Some (Integer 2)) None)) /\
  calc_value "2+3" = Some (Raise AttributeError).
Proof. repeat split. Qed.

(** C3.  The claim: a run of digits is consumed up to a character that is
    no digit or up to the end of the input, and one INTEGER token holds
    the characters collected; so [tokenize "12-3"] is INTEGER "12",
    MINUS "-", INTEGER "3".  On the code "12" is grouped into one token,
    but the run "3", which reaches the end of the input, gives no
    token. *)
Theorem tokenize_12_minus_3 :
  tokenize "12-3" =
  Some [Token.new Token.INTEGER "12"; Token.new Token.MINUS "-"].
Proof. reflexivity. Qed.

(** C4.  Lexing "(2+3)-(1+3)", parsing the tokens and reading [.value] of
    the tree gives the integer 1. *)
Theorem calc_value_nested :
  exists tokens parsed,
    tokenize "(2+3)-(1+3)" = Some tokens /\
    parse tokens = Some (Ok parsed) /\
    value (Binary parsed) = Ok 1%Z.
Proof. do 2 eexists. repeat split. Qed.

Lemma nested_tokens_lexed : tokenize "((1+2)-3)" = Some nested_tokens.
Proof. reflexivity. Qed.



(** C6, as stated, fails: a third integer is not dropped, it replaces the
    right operand.  After the tokens of "1+2" the right operand is 2;
    with the tokens of "+3" added, as [lex] returns them for "1+2+3 ",
    it is 3, and the value is 4. *)
Lemma parse_third_integer_replaces_right :
  parse [Token.new Token.INTEGER "1"; Token.new Token.PLUS "+";
         Token.new Token.INTEGER "2"] =
    Some (Ok (BinaryExpression.new (Some BinaryExpression.ADDITION)
                (Some (Integer 1)) (Some (Integer 2)))) /\
  tokenize "1+2+3 " =
    Some [Token.new Token.INTEGER "1"; Token.new Token.PLUS "+";
          Token.new Token.INTEGER "2"; Token.new Token.PLUS "+";
          Token.new Token.INTEGER "3"] /\
  parse [Token.new Token.INTEGER "1"; Token.new Token.PLUS "+";
         Token.new Token.INTEGER "2"; Token.new Token.PLUS "+";
         Token.new Token.INTEGER "3"] =
    Some (Ok (BinaryExpression.new (Some BinaryExpression.ADDITION)
                (Some (Integer 1)) (Some (Integer 3)))) /\
  calc_value "1+2+3 " = Some (Ok 4%Z).
Proof. repeat split. Qed.

(** C6, amended.  When the loop of [parse] meets an operand (an INTEGER
    or a parenthesized sub-expression), then: with no left side yet, the
    operand is the left operand of the returned node; with a left side,
    the left operand stays as it was and the operand is stored as the
    right operand, whatever was there, so that it is the right operand of
    the returned node when no later operand follows.  A node holds two
    operands: the first one and the last later one. *)
Theorem parse_operands result has_left_side tok rest e rest' node :
  starts_operand tok rest e rest' ->
  parse_from result has_left_side (tok :: rest) = Some (Ok node) ->
  (has_left_side = false -> BinaryExpression.left node = Some e) /\
  (has_left_side = true ->
   BinaryExpression.left node = BinaryExpression.left result /\
   (no_operand rest' = true -> BinaryExpression.right node = Some e)).
Proof.
  intros Hop Hrun.
  rewrite (parse_from_operand _ _ _ _ _ _ Hop) in Hrun.
  split; intros ->; cbn [store negb fst] in Hrun.
  - now apply (parse_from_left_kept (length rest')) in Hrun.
  - split.
    + now apply (parse_from_left_kept (length rest')) in Hrun.
    + intros Hno.
      now apply (parse_from_no_operand _ _ _ _ Hno) in Hrun as [_ Hright].
Qed.

Lemma parse_operands_witness :
  BinaryExpression.left
    (BinaryExpression.new (Some BinaryExpression.ADDITION)
       (Some (Integer 1)) (Some (Integer 3))) = Some (Integer 1) /\
  BinaryExpression.right
    (BinaryExpression.new (Some BinaryExpression.ADDITION)
       (Some (Integer 1)) (Some (Integer 3))) = Some (Integer 3).
Proof.
  destruct (parse_operands
              (BinaryExpression.new (Some BinaryExpression.ADDITION)
                 (Some (Integer 1)) (Some (Integer 2)))
              true (Token.new Token.INTEGER "3")
              [Token.new Token.PLUS "+"] (Integer 3)
              [Token.new Token.PLUS "+"]
              (BinaryExpression.new (Some BinaryExpression.ADDITION)
                 (Some (Integer 1)) (Some (Integer 3))))
    as [_ Hright].
  - apply operand_integer; reflexivity.
  - reflexivity.
  - destruct (Hright eq_refl) as [Hl Hr].
    split; [exact Hl|exact (Hr eq_refl)].
Defined.

(** C7.  A PLUS or MINUS token met by the loop of [parse] sets the
    operator of the current node to ADDITION or SUBTRACTION, whatever
    the operator was before; in a flat run of tokens the returned node
    has the operator of the last PLUS or MINUS token. *)
Theorem parse_operator result has_left_side tok rest ty :
  (Token.type_ tok = Token.PLUS /\ ty = BinaryExpression.ADDITION) \/
  (Token.type_ tok = Token.MINUS /\ ty = BinaryExpression.SUBTRACTION) ->
  parse_from result has_left_side (tok :: rest) =
    parse_from (BinaryExpression.new (Some ty)
                  (BinaryExpression.left result)
                  (BinaryExpression.right result))
               has_left_side rest /\
  (forall node,
      flat rest = true ->
      parse_from result has_left_side (tok :: rest) = Some (Ok node) ->
      BinaryExpression.type_ node = Some (last_operator ty rest)).
Proof.
  intros Htok.
  assert (Hstep : parse_from result has_left_side (tok :: rest) =
                  parse_from (BinaryExpression.set_type_ result ty)
                             has_left_side rest).
  { rewrite parse_from_cons.
    destruct Htok as [[-> ->]|[-> ->]]; reflexivity. }
  split; [exact Hstep|].
  intros node Hflat Hrun. rewrite Hstep in Hrun.
  eapply parse_from_flat_operator; [exact Hflat| |exact Hrun].
  reflexivity.
Qed.

Lemma parse_operator_witness :
  BinaryExpression.type_
    (BinaryExpression.new (Some BinaryExpression.SUBTRACTION)
       (Some (Integer 1)) (Some (Integer 3))) =
  Some (last_operator BinaryExpression.ADDITION
          [Token.new Token.INTEGER "2"; Token.new Token.MINUS "-";
           Token.new Token.INTEGER "3"]).
Proof.
  destruct (parse_operator
              (BinaryExpression.new None (Some (Integer 1)) None) true
              (Token.new Token.PLUS "+")
              [Token.new Token.INTEGER "2"; Token.new Token.MINUS "-";
               Token.new Token.INTEGER "3"]
              BinaryExpression.ADDITION) as [_ Hlast].
  - left. split; reflexivity.
  - apply Hlast; reflexivity.
Defined.





(** C9.  Two calls of [lex] in a row on the same string, the second one
    on the console the first one left, both return, and their token
    sequences have the same length and, position by position, the same
    kind and text.  The console line is the only trace a call leaves. *)
Theorem lex_twice input_ out :
  exists tokens1 tokens2,
    fst (lex input_ out) = Some tokens1 /\
    fst (lex input_ (snd (lex input_ out))) = Some tokens2 /\
    length tokens1 = length tokens2 /\
    Forall2 (fun a b => Token.type_ a = Token.type_ b /\
                        Token.text a = Token.text b) tokens1 tokens2 /\
    snd (lex input_ out) = out ++ ["Lexing"].
Proof.
  destruct (tokenize_total input_) as [tokens Htok].
  exists tokens, tokens.
  split; [exact Htok|].
  split; [exact Htok|].
  split; [reflexivity|].
  split; [|reflexivity].
  clear Htok. induction tokens as [|tok tokens IH]; constructor; auto.
Qed.

(** C10, as stated, fails: a node can have both operands set and no
    operator and still raise.  For the tokens of "()1 " the left operand
    is the empty node of the empty group, and reading [.value] raises
    [AttributeError]. *)
Lemma value_unset_operator_incomplete_operand :
  tokenize "()1 " =
    Some [Token.new Token.LPAREN "("; Token.new Token.RPAREN ")";
          Token.new Token.INTEGER "1"] /\
  parse [Token.new Token.LPAREN "("; Token.new Token.RPAREN ")";
         Token.new Token.INTEGER "1"] =
    Some (Ok (BinaryExpression.new None
                (Some (Binary BinaryExpression.init))
                (Some (Integer 1)))) /\
  value (Binary (BinaryExpression.new None
                   (Some (Binary BinaryExpression.init))
                   (Some (Integer 1)))) = Raise AttributeError.
Proof. repeat split. Qed.

(** C10, amended.  A node with both operands set and the operator never
    set is evaluated exactly as with SUBTRACTION: when reading [.value]
    of both operands returns integers [a] and [b], reading [.value] of
    the node raises nothing and returns [a - b]; when reading [.value] of
    an operand raises, reading [.value] of the node raises
    [AttributeError]. *)
Theorem value_unset_operator l r :
  value (Binary (BinaryExpression.new None (Some l) (Some r))) =
    value (Binary (BinaryExpression.new (Some BinaryExpression.SUBTRACTION)
                     (Some l) (Some r))) /\
  match value l, value r with
  | Ok a, Ok b =>
      value (Binary (BinaryExpression.new None (Some l) (Some r))) =
        Ok (a - b)%Z
  | _, _ =>
      value (Binary (BinaryExpression.new None (Some l) (Some r))) =
        Raise AttributeError
  end.
Proof.
  split; [reflexivity|].
  change (value (Binary (BinaryExpression.new None (Some l) (Some r))))
    with (a <- value l ;; b <- value r ;; Ok (a - b)%Z).
  destruct (value_by_completeness l) as [Hl1 Hl2].
  destruct (value_by_completeness r) as [Hr1 Hr2].
  destruct (complete l), (complete r).
  - destruct (Hl1 eq_refl) as [a ->]. destruct (Hr1 eq_refl) as [b ->].
    reflexivity.
  - destruct (Hl1 eq_refl) as [a ->]. now rewrite (Hr2 eq_refl).
  - destruct (Hr1 eq_refl) as [b ->]. now rewrite (Hl2 eq_refl).
  - now rewrite (Hl2 eq_refl), (Hr2 eq_refl).
Qed.

(** * Further properties *)

(** ** The lexer on any input *)

Lemma take_drop_digits s : (take_digits s ++ drop_digits s)%string = s.
Proof.
  induction s as [|c s IH]; simpl; [reflexivity|].
  destruct (isdigit c); simpl; [now rewrite IH|reflexivity].
Qed.

Lemma take_digits_all s : all_chars isdigit (take_digits s) = true.
Proof.
  induction s as [|c s IH]; simpl; [reflexivity|].
  destruct (isdigit c) eqn:Hc; simpl; [now rewrite Hc|reflexivity].
Qed.

Lemma drop_digits_head s :
  drop_digits s = EmptyString \/
  exists d s', drop_digits s = String d s' /\ isdigit d = false.
Proof.
  induction s as [|c s IH]; simpl; [now left|].
  destruct (isdigit c) eqn:Hc; [exact IH|].
  right. now exists c, s.
Qed.

Lemma drop_digits_length s :
  String.length (drop_digits s) <= String.length s.
Proof.
  induction s as [|c s IH]; simpl; [lia|].
  destruct (isdigit c); simpl; lia.
Qed.

(** [tokenize] returns, and what it returns is described by [lexes]. *)
Lemma tokenize_lexes_bounded n :
  forall s, String.length s <= n ->
            exists tokens, tokenize s = Some tokens /\ lexes s tokens.
Proof.
  induction n as [|n IH]; intros s Hlen.
  - destruct s; [|simpl in Hlen; lia].
    exists []. split; [reflexivity|constructor].
  - destruct s as [|c s]; [exists []; split; [reflexivity|constructor]|].
    simpl in Hlen.
    destruct (symbol_token c) as [tok|] eqn:Hc.
    + destruct (IH s) as [tokens [Htok Hlex]]; [lia|].
      exists (tok :: tokens). split.
      * now rewrite (tokenize_symbol c s tok Hc), Htok.
      * now constructor.
    + pose proof (take_drop_digits s) as Hsplit.
      pose proof (take_digits_all s) as Hall.
      pose proof (drop_digits_length s) as Hdl.
      destruct (drop_digits_head s) as [Hnil|(d & s' & Hd & Hnd)].
      * rewrite Hnil in Hsplit.
        assert (Hs : take_digits s = s).
        { rewrite <- Hsplit at 2.
          clear. induction (take_digits s); simpl; congruence. }
        rewrite Hs in Hall.
        exists []. split; [now apply tokenize_trailing|now constructor].
      * rewrite Hd in Hsplit, Hdl.
        destruct (IH (String d s')) as [tokens [Htok Hlex]]; [lia|].
        remember (take_digits s) as ds eqn:Hds. clear Hds.
        exists (Token.new Token.INTEGER (String c ds) :: tokens).
        rewrite <- Hsplit. split.
        -- now rewrite (tokenize_integer c ds d s' Hc Hall Hnd), Htok.
        -- now constructor.
Qed.

Lemma tokenize_lexes s :
  exists tokens, tokenize s = Some tokens /\ lexes s tokens.
Proof. now apply (tokenize_lexes_bounded (String.length s)). Qed.

Lemma lexes_nil_inv tokens : lexes EmptyString tokens -> tokens = [].
Proof. intros H. now inversion H. Qed.

Lemma isdigit_no_symbol c : isdigit c = true -> symbol_token c = None.
Proof.
  destruct c as [[] [] [] [] [] [] [] []]; intros H;
    try discriminate H; reflexivity.
Qed.

Lemma symbol_token_text c tok :
  symbol_token c = Some tok ->
  Token.text tok = String c EmptyString /\ well_formed tok = true.
Proof.
  unfold symbol_token.
  destruct (Ascii.eqb_spec c "+") as [->|_]; [intros [= <-]; now split|].
  destruct (Ascii.eqb_spec c "-") as [->|_]; [intros [= <-]; now split|].
  destruct (Ascii.eqb_spec c "(") as [->|_]; [intros [= <-]; now split|].
  destruct (Ascii.eqb_spec c ")") as [->|_]; [intros [= <-]; now split|].
  discriminate.
Qed.

Lemma append_assoc (a b c : string) :
  ((a ++ b) ++ c = a ++ (b ++ c))%string.
Proof. induction a as [|x a IH]; simpl; [reflexivity|now rewrite IH]. Qed.

Lemma append_empty_r (a : string) : (a ++ EmptyString)%string = a.
Proof. induction a as [|x a IH]; simpl; [reflexivity|now rewrite IH]. Qed.

Lemma ends_with_symbol_append a b :
  b <> EmptyString ->
  ends_with_symbol (a ++ b) = ends_with_symbol b.
Proof.
  intros Hb. induction a as [|x a IH]; [reflexivity|].
  cbn [append ends_with_symbol].
  destruct (a ++ b)%string eqn:Hab; [|exact IH].
  destruct a; [simpl in Hab; contradiction|discriminate].
Qed.

Lemma ends_with_symbol_digits ds :
  all_chars isdigit ds = true -> ends_with_symbol ds = false.
Proof.
  induction ds as [|c ds IH]; [reflexivity|].
  simpl. intros H. apply andb_true_iff in H as [Hc Hds].
  destruct ds as [|c' ds'].
  - unfold is_symbol. now rewrite (isdigit_no_symbol c Hc).
  - now apply IH.
Qed.

Lemma ends_with_symbol_run r :
  is_run r = true -> ends_with_symbol r = false.
Proof.
  destruct r as [|c ds]; [discriminate|].
  simpl. intros H. apply andb_true_iff in H as [Hc Hds].
  destruct ds as [|c' ds'].
  - now apply negb_true_iff in Hc.
  - now apply ends_with_symbol_digits.
Qed.

(** ** What [lex] returns *)

Lemma lexes_length s tokens :
  lexes s tokens -> length tokens <= String.length s.
Proof.
  induction 1; simpl in *; try lia.
  rewrite length_append. simpl. lia.
Qed.

(** X1.  The tokens are never more than the characters of the input. *)
Theorem tokenize_length input_ :
  exists tokens,
    tokenize input_ = Some tokens /\
    length tokens <= String.length input_.
Proof.
  destruct (tokenize_lexes input_) as [tokens [Htok Hlex]].
  exists tokens. split; [exact Htok|now apply lexes_length].
Qed.

Lemma lexes_well_formed s tokens :
  lexes s tokens -> forallb well_formed tokens = true.
Proof.
  induction 1 as [|c s tok tokens Hc _ IH|c ds d s tokens Hc Hds Hd _ IH|];
    cbn [forallb]; try reflexivity.
  - now rewrite (proj2 (symbol_token_text c tok Hc)), IH.
  - rewrite IH. unfold well_formed, is_run, is_symbol.
    cbn [Token.type_ Token.text]. now rewrite Hc, Hds.
Qed.

(** X2.  Every token [lex] returns is well formed: a symbol token carries its
    own character, and the text of an INTEGER token is a character that
    is no symbol followed by digits only; no text is empty. *)
Theorem tokenize_well_formed input_ :
  exists tokens,
    tokenize input_ = Some tokens /\
    forallb well_formed tokens = true /\
    forallb (fun tok => negb (String.eqb (Token.text tok) "")) tokens = true.
Proof.
  destruct (tokenize_lexes input_) as [tokens [Htok Hlex]].
  exists tokens. split; [exact Htok|].
  pose proof (lexes_well_formed _ _ Hlex) as Hwf.
  split; [exact Hwf|].
  clear Htok Hlex. induction tokens as [|tok tokens IH]; [reflexivity|].
  simpl in *. apply andb_true_iff in Hwf as [Htok Hrest].
  rewrite (IH Hrest), andb_true_r.
  unfold well_formed in Htok.
  destruct tok as [ty text]; simpl in *.
  destruct ty; try (apply String.eqb_eq in Htok; now subst).
  now destruct text.
Qed.

Lemma lexes_dropped s tokens :
  lexes s tokens ->
  exists dropped,
    s = (concat_texts tokens ++ dropped)%string /\
    ((dropped = EmptyString /\
      (s = EmptyString \/ ends_with_symbol s = true)) \/
     (is_run dropped = true /\ ends_with_symbol s = false)).
Proof.
  induction 1 as [|c s tok tokens Hc _ IH|c ds d s tokens Hc Hds Hd _ IH
                  |c ds Hc Hds].
  - exists EmptyString. split; [reflexivity|]. left. now split; [|left].
  - destruct IH as (dropped & Hs & Hcase).
    destruct (symbol_token_text c tok Hc) as [Htext _].
    exists dropped. split.
    + cbn [concat_texts]. rewrite Htext. simpl. now rewrite <- Hs.
    + destruct Hcase as [[-> [->|Hend]]|[Hrun Hend]].
      * left. split; [reflexivity|right]. simpl. unfold is_symbol.
        now rewrite Hc.
      * left. split; [reflexivity|right].
        change (String c s) with (String c EmptyString ++ s)%string.
        rewrite ends_with_symbol_append; [exact Hend|].
        intros ->. discriminate.
      * right. split; [exact Hrun|].
        change (String c s) with (String c EmptyString ++ s)%string.
        rewrite ends_with_symbol_append; [exact Hend|].
        intros ->.
        destruct dropped; [discriminate|].
        destruct (concat_texts tokens); discriminate.
  - destruct IH as (dropped & Hs & Hcase).
    exists dropped.
    assert (Hne : String d s <> EmptyString) by discriminate.
    change (String c (ds ++ String d s))
      with (String c ds ++ String d s)%string.
    rewrite ends_with_symbol_append by exact Hne.
    split.
    + cbn [concat_texts Token.text]. rewrite append_assoc. now rewrite <- Hs.
    + destruct Hcase as [[-> [Habs|Hend]]|[Hrun Hend]].
      * discriminate.
      * left. split; [reflexivity|now right].
      * right. now split.
  - exists (String c ds). split; [reflexivity|].
    right.
    assert (Hrun : is_run (String c ds) = true)
      by (unfold is_run, is_symbol; now rewrite Hc, Hds).
    split; [exact Hrun|now apply ends_with_symbol_run].
Qed.

(** X3.  The texts of the tokens, put together, are the input up to a last
    part that is dropped: nothing, or a run that reaches the end of the
    input. *)
Theorem tokenize_texts input_ :
  exists tokens dropped,
    tokenize input_ = Some tokens /\
    input_ = (concat_texts tokens ++ dropped)%string /\
    (dropped = EmptyString \/ is_run dropped = true).
Proof.
  destruct (tokenize_lexes input_) as [tokens [Htok Hlex]].
  destruct (lexes_dropped _ _ Hlex) as (dropped & Hs & Hcase).
  exists tokens, dropped. split; [exact Htok|]. split; [exact Hs|].
  destruct Hcase as [[H _]|[H _]]; [now left|now right].
Qed.

(** X4.  The texts of the tokens give back the whole input exactly when the
    input is empty or ends with one of the four symbols. *)
Theorem tokenize_lossless input_ :
  exists tokens,
    tokenize input_ = Some tokens /\
    (concat_texts tokens = input_ <->
     input_ = EmptyString \/ ends_with_symbol input_ = true).
Proof.
  destruct (tokenize_lexes input_) as [tokens [Htok Hlex]].
  destruct (lexes_dropped _ _ Hlex) as (dropped & Hs & Hcase).
  exists tokens. split; [exact Htok|]. split.
  - intros Hall. destruct Hcase as [[_ H]|[Hrun _]]; [exact H|].
    exfalso. rewrite <- Hall in Hs at 1.
    assert (Hlen : String.length dropped = 0).
    { apply (f_equal String.length) in Hs.
      rewrite length_append in Hs. lia. }
    destruct dropped; [discriminate Hrun|discriminate Hlen].
  - intros Hend. destruct Hcase as [[-> _]|[_ Hno]].
    + now rewrite append_empty_r in Hs.
    + destruct Hend as [->|Hend]; [|congruence].
      destruct (concat_texts tokens); [reflexivity|discriminate].
Qed.

Lemma lexes_append s1 tokens1 :
  lexes s1 tokens1 ->
  ends_with_symbol s1 = true ->
  forall s2 tokens2,
    tokenize s2 = Some tokens2 ->
    tokenize (s1 ++ s2) = Some (tokens1 ++ tokens2).
Proof.
  induction 1 as [|c s tok tokens Hc Hlex IH|c ds d s tokens Hc Hds Hd _ IH
                  |c ds Hc Hds]; intros Hend s2 tokens2 H2.
  - discriminate.
  - cbn [append app]. rewrite (tokenize_symbol c _ tok Hc).
    destruct s as [|c' s'].
    + apply lexes_nil_inv in Hlex. subst tokens. simpl. now rewrite H2.
    + now rewrite (IH Hend s2 tokens2 H2).
  - change (String c (ds ++ String d s))
      with (String c ds ++ String d s)%string in Hend.
    rewrite ends_with_symbol_append in Hend by discriminate.
    cbn [append app]. rewrite append_assoc. cbn [append].
    rewrite (tokenize_integer c ds d _ Hc Hds Hd).
    change (String d (s ++ s2)) with (String d s ++ s2)%string.
    now rewrite (IH Hend s2 tokens2 H2).
  - assert (Hrun : is_run (String c ds) = true)
      by (unfold is_run, is_symbol; now rewrite Hc, Hds).
    apply ends_with_symbol_run in Hrun. congruence.
Qed.

(** X5.  Behind a symbol, lexing starts afresh: the tokens of [s1 ++ s2] are
    those of [s1] followed by those of [s2] when [s1] ends with one of the
    four symbols. *)
Theorem tokenize_append s1 s2 :
  ends_with_symbol s1 = true ->
  exists tokens1 tokens2,
    tokenize s1 = Some tokens1 /\
    tokenize s2 = Some tokens2 /\
    tokenize (s1 ++ s2) = Some (tokens1 ++ tokens2).
Proof.
  intros Hend.
  destruct (tokenize_lexes s1) as [tokens1 [H1 Hlex]].
  destruct (tokenize_total s2) as [tokens2 H2].
  exists tokens1, tokens2. split; [exact H1|]. split; [exact H2|].
  now apply (lexes_append s1 tokens1 Hlex Hend).
Qed.

Lemma tokenize_append_witness :
  exists tokens1 tokens2,
    tokenize "(2+3)" = Some tokens1 /\
    tokenize "-(1+3)" = Some tokens2 /\
    tokenize ("(2+3)" ++ "-(1+3)") = Some (tokens1 ++ tokens2).
Proof. apply (tokenize_append "(2+3)" "-(1+3)"). reflexivity. Defined.

(** X6.  A run that reaches the end of the input gives no token, whatever
    stands in front of it: the input with the run has the tokens of the
    input without it. *)
Theorem tokenize_run_at_end s run :
  s = EmptyString \/ ends_with_symbol s = true ->
  is_run run = true ->
  tokenize (s ++ run) = tokenize s.
Proof.
  intros Hs Hrun.
  assert (Hnone : tokenize run = Some []).
  { destruct run as [|c ds]; [discriminate|].
    unfold is_run, is_symbol in Hrun.
    apply andb_true_iff in Hrun as [Hc Hds].
    apply tokenize_trailing; [|exact Hds].
    now destruct (symbol_token c). }
  destruct Hs as [->|Hend]; [exact Hnone|].
  destruct (tokenize_lexes s) as [tokens [Htok Hlex]].
  rewrite (lexes_append s tokens Hlex Hend run [] Hnone), Htok.
  now rewrite app_nil_r.
Qed.

Lemma tokenize_run_at_end_witness :
  tokenize ("(1+2)-" ++ "34") = tokenize "(1+2)-".
Proof.
  apply (tokenize_run_at_end "(1+2)-" "34"); [right|]; reflexivity.
Defined.

(** ** Evaluation *)

(** X7.  Reading [.value] returns an integer exactly on the trees that have
    both operands set at every node; on every other tree it raises, and
    what it raises is [AttributeError]. *)
Theorem value_outcome e :
  match value e with
  | Ok _ => complete e = true
  | Raise x => x = AttributeError /\ complete e = false
  end.
Proof.
  destruct (value_by_completeness e) as [Hc Hi].
  destruct (complete e).
  - destruct (Hc eq_refl) as [v ->]. reflexivity.
  - rewrite (Hi eq_refl). now split.
Qed.

Lemma value_right_none node :
  BinaryExpression.right node = None ->
  value (Binary node) = Raise AttributeError.
Proof.
  destruct node as [ty l r]. cbn [BinaryExpression.right]. intros ->.
  apply value_by_completeness. cbn [complete].
  destruct l as [l|]; [apply andb_false_r|reflexivity].
Qed.

Lemma value_left_none node :
  BinaryExpression.left node = None ->
  value (Binary node) = Raise AttributeError.
Proof.
  destruct node as [ty l r]. cbn [BinaryExpression.left]. intros ->.
  now apply value_by_completeness.
Qed.

(** ** What [parse] returns *)

Lemma int_ok_split rest :
  int_ok rest = int_ok (before_rparen rest) && int_ok (after_rparen rest).
Proof.
  induction rest as [|t ts IH]; [reflexivity|].
  cbn [before_rparen after_rparen]. unfold is_rparen.
  destruct (Token.type_ t) eqn:Hty; cbn [Token.Type_eqb];
    unfold int_ok in *; cbn [forallb]; rewrite Hty;
    rewrite ?IH, ?andb_assoc; reflexivity.
Qed.

Lemma parse_from_int_ok n :
  forall tokens result has_left_side,
    length tokens <= n ->
    (int_ok tokens = true ->
     exists node, parse_from result has_left_side tokens = Some (Ok node)) /\
    (int_ok tokens = false ->
     parse_from result has_left_side tokens = Some (Raise ValueError)).
Proof.
  induction n as [|n IH]; intros tokens result has_left_side Hlen.
  - destruct tokens; [|simpl in Hlen; lia].
    rewrite parse_from_nil. split; [eauto|discriminate].
  - destruct tokens as [|tok rest].
    { rewrite parse_from_nil. split; [eauto|discriminate]. }
    simpl in Hlen. rewrite parse_from_cons.
    unfold int_ok. cbn [forallb]. fold (int_ok rest).
    destruct (Token.type_ tok).
    + destruct (py_int (Token.text tok)); [|split; [discriminate|reflexivity]].
      apply IH. lia.
    + apply IH. lia.
    + apply IH. lia.
    + rewrite (int_ok_split rest). cbn [andb].
      pose proof (before_rparen_length rest).
      pose proof (after_rparen_length rest).
      rewrite parse_is_parse_from.
      destruct (IH (before_rparen rest) BinaryExpression.init false)
        as [Hok Hbad]; [lia|].
      destruct (int_ok (before_rparen rest)).
      * destruct (Hok eq_refl) as [element ->]. apply IH. lia.
      * rewrite (Hbad eq_refl). split; [discriminate|reflexivity].
    + apply IH. lia.
Qed.

Lemma parse_by_int_ok tokens :
  (int_ok tokens = true -> exists node, parse tokens = Some (Ok node)) /\
  (int_ok tokens = false -> parse tokens = Some (Raise ValueError)).
Proof.
  rewrite parse_is_parse_from.
  now apply (parse_from_int_ok (length tokens)).
Qed.

(** X8.  [parse] returns a node exactly when [int] accepts the text of every
    INTEGER token, inside parentheses or not; otherwise it raises, and
    what it raises is [ValueError]. *)
Theorem parse_int_ok tokens :
  match parse tokens with
  | Some (Ok _) => int_ok tokens = true
  | Some (Raise e) => e = ValueError /\ int_ok tokens = false
  | None => False
  end.
Proof.
  destruct (parse_by_int_ok tokens) as [Hok Hbad].
  destruct (int_ok tokens).
  - destruct (Hok eq_refl) as [node ->]. reflexivity.
  - rewrite (Hbad eq_refl). now split.
Qed.

Lemma parse_from_right_needs_left n :
  forall tokens result has_left_side node,
    length tokens <= n ->
    has_left_side = left_is_set result ->
    (BinaryExpression.left result = None ->
     BinaryExpression.right result = None) ->
    parse_from result has_left_side tokens = Some (Ok node) ->
    BinaryExpression.left node = None ->
    BinaryExpression.right node = None.
Proof.
  induction n as [|n IH];
    intros tokens result has_left_side node Hlen Hflag Hinv Hrun.
  - destruct tokens; [|simpl in Hlen; lia].
    rewrite parse_from_nil in Hrun. now inversion Hrun; subst.
  - destruct tokens as [|tok rest].
    { rewrite parse_from_nil in Hrun. now inversion Hrun; subst. }
    simpl in Hlen. rewrite parse_from_cons in Hrun.
    assert (Hstore : forall e,
               true = left_is_set (fst (store result has_left_side e)) /\
               (BinaryExpression.left (fst (store result has_left_side e))
                = None ->
                BinaryExpression.right (fst (store result has_left_side e))
                = None)).
    { intros e. rewrite Hflag. unfold store, left_is_set.
      destruct (BinaryExpression.left result) eqn:Hl; simpl;
        rewrite ?Hl; split; try reflexivity; discriminate. }
    destruct (Token.type_ tok).
    + destruct (py_int _) as [v|]; [|discriminate].
      destruct (Hstore (Integer v)) as [Hf Hi].
      eapply (IH rest); [lia|exact Hf|exact Hi|exact Hrun].
    + eapply (IH rest); [lia| | |exact Hrun]; assumption.
    + eapply (IH rest); [lia| | |exact Hrun]; assumption.
    + destruct (parse (before_rparen rest)) as [[element|e]|];
        try discriminate.
      destruct (Hstore (Binary element)) as [Hf Hi].
      pose proof (after_rparen_length rest).
      eapply (IH (after_rparen rest)); [lia|exact Hf|exact Hi|exact Hrun].
    + eapply (IH rest); [lia|exact Hflag|exact Hinv|exact Hrun].
Qed.

(** X9.  A node returned by [parse] never has a right operand without a left
    operand. *)
Theorem parse_right_needs_left tokens node :
  parse tokens = Some (Ok node) ->
  BinaryExpression.left node = None ->
  BinaryExpression.right node = None.
Proof.
  intros Hrun.
  apply (parse_from_right_needs_left (length tokens) tokens
           BinaryExpression.init false node);
    [lia|reflexivity|reflexivity|exact Hrun].
Qed.

Lemma parse_right_needs_left_witness :
  BinaryExpression.right
    (BinaryExpression.new (Some BinaryExpression.ADDITION) None None : Node)
  = None.
Proof.
  apply (parse_right_needs_left
           [Token.new Token.PLUS "+"; Token.new Token.RPAREN ")"]
           (BinaryExpression.new (Some BinaryExpression.ADDITION) None None));
    reflexivity.
Defined.

Lemma parse_from_drop_rparen tokens :
  forall result has_left_side,
    flat tokens = true ->
    parse_from result has_left_side
      (filter (fun tok => negb (is_rparen tok)) tokens) =
    parse_from result has_left_side tokens.
Proof.
  induction tokens as [|tok rest IH]; intros result has_left_side Hflat;
    [reflexivity|].
  simpl in Hflat. apply andb_true_iff in Hflat as [Htok Hrest].
  cbn [filter]. unfold is_rparen at 1.
  destruct (Token.type_ tok) eqn:Hty; cbn [Token.Type_eqb negb];
    try discriminate;
    rewrite ?(parse_from_cons _ _ tok), ?Hty, ?IH by assumption;
    try reflexivity.
  destruct (py_int _); [|reflexivity]. now apply IH.
Qed.

(** X10.  In a run without opening parentheses the closing ones count for
    nothing: [parse] returns the same with them removed. *)
Theorem parse_ignores_rparen tokens :
  flat tokens = true ->
  parse (filter (fun tok => negb (is_rparen tok)) tokens) = parse tokens.
Proof.
  intros Hflat. rewrite !parse_is_parse_from.
  now apply parse_from_drop_rparen.
Qed.

Lemma parse_ignores_rparen_witness :
  parse (filter (fun tok => negb (is_rparen tok))
           [Token.new Token.INTEGER "2"; Token.new Token.RPAREN ")";
            Token.new Token.PLUS "+"; Token.new Token.RPAREN ")";
            Token.new Token.INTEGER "3"]) =
  parse [Token.new Token.INTEGER "2"; Token.new Token.RPAREN ")";
         Token.new Token.PLUS "+"; Token.new Token.RPAREN ")";
         Token.new Token.INTEGER "3"].
Proof.
  apply (parse_ignores_rparen
           [Token.new Token.INTEGER "2"; Token.new Token.RPAREN ")";
            Token.new Token.PLUS "+"; Token.new Token.RPAREN ")";
            Token.new Token.INTEGER "3"]).
  reflexivity.
Defined.

Lemma before_rparen_app inner close post :
  no_rparen inner = true ->
  is_rparen close = true ->
  before_rparen (inner ++ close :: post) = inner /\
  after_rparen (inner ++ close :: post) = post.
Proof.
  intros Hinner Hclose.
  induction inner as [|t inner IH]; simpl.
  - now rewrite Hclose.
  - simpl in Hinner. apply andb_true_iff in Hinner as [Ht Hinner].
    apply negb_true_iff in Ht. rewrite Ht.
    destruct (IH Hinner) as [-> ->]. now split.
Qed.

Lemma before_rparen_all rest :
  no_rparen rest = true ->
  before_rparen rest = rest /\ after_rparen rest = [].
Proof.
  induction rest as [|t rest IH]; intros H; [now split|].
  simpl in *. apply andb_true_iff in H as [Ht Hrest].
  apply negb_true_iff in Ht. rewrite Ht.
  destruct (IH Hrest) as [-> ->]. now split.
Qed.

Lemma no_operand_int_ok tokens : no_operand tokens = true -> int_ok tokens = true.
Proof.
  induction tokens as [|tok rest IH]; [reflexivity|].
  unfold no_operand, int_ok in *. cbn [forallb].
  intros H. apply andb_true_iff in H as [Htok Hrest].
  rewrite (IH Hrest).
  now destruct (Token.type_ tok).
Qed.

(** X11.  Tokens that start no operand (only operators and closing
    parentheses, or no token at all): [parse] returns a node with both
    operands unset, and reading [.value] raises [AttributeError]. *)
Theorem parse_no_operand tokens :
  no_operand tokens = true ->
  exists node,
    parse tokens = Some (Ok node) /\
    BinaryExpression.left node = None /\
    BinaryExpression.right node = None /\
    value (Binary node) = Raise AttributeError.
Proof.
  intros Hno.
  destruct (proj1 (parse_by_int_ok tokens) (no_operand_int_ok _ Hno))
    as [node Hnode].
  exists node. split; [exact Hnode|].
  rewrite parse_is_parse_from in Hnode.
  destruct (parse_from_no_operand _ _ _ _ Hno Hnode) as [Hl Hr].
  simpl in Hl, Hr.
  repeat split; try assumption. now apply value_left_none.
Qed.

Lemma parse_no_operand_witness :
  exists node,
    parse [Token.new Token.MINUS "-"; Token.new Token.RPAREN ")"] =
      Some (Ok node) /\
    BinaryExpression.left node = None /\
    BinaryExpression.right node = None /\
    value (Binary node) = Raise AttributeError.
Proof.
  apply (parse_no_operand
           [Token.new Token.MINUS "-"; Token.new Token.RPAREN ")"]).
  reflexivity.
Defined.

(** X12.  A parenthesized group that is the only operand: the node [parse]
    returns has the group as its left operand and no right operand, and
    reading [.value] raises [AttributeError]. *)
Theorem parse_single_group tok inner close post node :
  Token.type_ tok = Token.LPAREN ->
  Token.type_ close = Token.RPAREN ->
  no_rparen inner = true ->
  no_operand post = true ->
  parse (tok :: inner ++ close :: post) = Some (Ok node) ->
  (exists element,
      parse inner = Some (Ok element) /\
      BinaryExpression.left node = Some (Binary element)) /\
  BinaryExpression.right node = None /\
  value (Binary node) = Raise AttributeError.
Proof.
  intros Hopen Hclose Hinner Hpost Hrun.
  apply is_rparen_iff in Hclose.
  destruct (before_rparen_app inner close post Hinner Hclose)
    as [Hbefore Hafter].
  rewrite parse_is_parse_from, parse_from_cons, Hopen in Hrun.
  rewrite Hbefore, Hafter in Hrun.
  destruct (parse inner) as [[element|e]|]; try discriminate.
  cbn [store negb fst] in Hrun.
  destruct (parse_from_no_operand _ _ _ _ Hpost Hrun) as [Hl Hr].
  simpl in Hl, Hr.
  split; [now exists element|].
  split; [exact Hr|now apply value_right_none].
Qed.

Lemma parse_single_group_witness :
  (exists element,
      parse [Token.new Token.INTEGER "2"; Token.new Token.PLUS "+";
             Token.new Token.INTEGER "3"] = Some (Ok element) /\
      BinaryExpression.left
        (BinaryExpression.new None
           (Some (Binary (BinaryExpression.new
                            (Some BinaryExpression.ADDITION)
                            (Some (Integer 2)) (Some (Integer 3)))))
           None) = Some (Binary element)) /\
  BinaryExpression.right
    (BinaryExpression.new None
       (Some (Binary (BinaryExpression.new
                        (Some BinaryExpression.ADDITION)
                        (Some (Integer 2)) (Some (Integer 3)))))
       None) = None /\
  value (Binary
           (BinaryExpression.new None
              (Some (Binary (BinaryExpression.new
                               (Some BinaryExpression.ADDITION)
                               (Some (Integer 2)) (Some (Integer 3)))))
              None)) = Raise AttributeError.
Proof.
  apply (parse_single_group
           (Token.new Token.LPAREN "(")
           [Token.new Token.INTEGER "2"; Token.new Token.PLUS "+";
            Token.new Token.INTEGER "3"]
           (Token.new Token.RPAREN ")") []); reflexivity.
Defined.

(** X13.  An opening parenthesis that is never closed takes all the tokens
    behind it: the node has the parse of the rest as its left operand and
    nothing else, and no error is raised for the missing parenthesis. *)
Theorem parse_unclosed tok rest :
  Token.type_ tok = Token.LPAREN ->
  no_rparen rest = true ->
  parse (tok :: rest) =
  match parse rest with
  | Some (Ok element) =>
      Some (Ok (BinaryExpression.new None (Some (Binary element)) None))
  | other => other
  end.
Proof.
  intros Hopen Hrest.
  destruct (before_rparen_all rest Hrest) as [Hbefore Hafter].
  rewrite parse_is_parse_from, parse_from_cons, Hopen.
  rewrite Hbefore, Hafter.
  destruct (parse rest) as [[element|e]|]; reflexivity.
Qed.

Lemma parse_unclosed_witness :
  parse [Token.new Token.LPAREN "("; Token.new Token.INTEGER "2";
         Token.new Token.PLUS "+"; Token.new Token.INTEGER "3"] =
  match parse [Token.new Token.INTEGER "2"; Token.new Token.PLUS "+";
               Token.new Token.INTEGER "3"] with
  | Some (Ok element) =>
      Some (Ok (BinaryExpression.new None (Some (Binary element)) None))
  | other => other
  end.
Proof.
  apply (parse_unclosed (Token.new Token.LPAREN "(")
           [Token.new Token.INTEGER "2"; Token.new Token.PLUS "+";
            Token.new Token.INTEGER "3"]); reflexivity.
Defined.

(** ** Flat runs of tokens *)

Lemma parse_from_flat tokens :
  forall result has_left_side node,
    flat tokens = true ->
    parse_from result has_left_side tokens = Some (Ok node) ->
    BinaryExpression.type_ node =
      final_operator (BinaryExpression.type_ result) tokens /\
    BinaryExpression.left node =
      (if has_left_side then BinaryExpression.left result
       else match integers tokens with
            | [] => BinaryExpression.left result
            | v :: _ => Some (Integer v)
            end) /\
    BinaryExpression.right node =
      match (if has_left_side then integers tokens
             else tl (integers tokens)) with
      | [] => BinaryExpression.right result
      | v :: l => Some (Integer (last (v :: l) 0%Z))
      end.
Proof.
  induction tokens as [|tok rest IH];
    intros result has_left_side node Hflat Hrun.
  - rewrite parse_from_nil in Hrun. inversion Hrun; subst.
    now destruct has_left_side.
  - simpl in Hflat. apply andb_true_iff in Hflat as [Htok Hrest].
    rewrite parse_from_cons in Hrun.
    unfold integers, final_operator. cbn [flat_map fold_left].
    fold (integers rest). unfold operator_of at 2.
    destruct (Token.type_ tok); try discriminate.
    + destruct (py_int _) as [v|]; [|discriminate].
      destruct (IH _ _ _ Hrest Hrun) as (Hty & Hl & Hr).
      cbn [app tl].
      destruct has_left_side; cbn [store negb fst] in *.
      * repeat split; try assumption.
        rewrite Hr. now destruct (integers rest).
      * repeat split; assumption.
    + destruct (IH _ _ _ Hrest Hrun) as (Hty & Hl & Hr).
      now repeat split.
    + destruct (IH _ _ _ Hrest Hrun) as (Hty & Hl & Hr).
      now repeat split.
    + destruct (IH _ _ _ Hrest Hrun) as (Hty & Hl & Hr).
      now repeat split.
Qed.

(** X14.  A run without parentheses that holds at least two integers: the value
    is the first integer combined with the last one by the last
    operator, by subtraction when there is no operator.  The integers
    and operators in between do not count. *)
Theorem parse_flat_value tokens first v others :
  flat tokens = true ->
  int_ok tokens = true ->
  integers tokens = first :: v :: others ->
  exists node,
    parse tokens = Some (Ok node) /\
    value (Binary node) =
      Ok (apply_operator (final_operator None tokens) first
            (last (v :: others) 0%Z)).
Proof.
  intros Hflat Hok Hints.
  destruct (proj1 (parse_by_int_ok tokens) Hok) as [node Hnode].
  exists node. split; [exact Hnode|].
  rewrite parse_is_parse_from in Hnode.
  destruct (parse_from_flat _ _ _ _ Hflat Hnode) as (Hty & Hl & Hr).
  rewrite Hints in Hl, Hr. cbn [tl] in Hr.
  destruct node as [ty l r]. cbn [BinaryExpression.type_
    BinaryExpression.left BinaryExpression.right] in *.
  subst ty l r. cbn [BinaryExpression.type_ BinaryExpression.init].
  unfold apply_operator.
  now destruct (final_operator None tokens) as [[]|].
Qed.

Lemma parse_flat_value_witness :
  exists node,
    parse [Token.new Token.INTEGER "1"; Token.new Token.PLUS "+";
           Token.new Token.INTEGER "2"; Token.new Token.MINUS "-";
           Token.new Token.INTEGER "4"] = Some (Ok node) /\
    value (Binary node) =
      Ok (apply_operator
            (final_operator None
               [Token.new Token.INTEGER "1"; Token.new Token.PLUS "+";
                Token.new Token.INTEGER "2"; Token.new Token.MINUS "-";
                Token.new Token.INTEGER "4"]) 1%Z (last [2; 4]%Z 0%Z)).
Proof.
  apply (parse_flat_value
           [Token.new Token.INTEGER "1"; Token.new Token.PLUS "+";
            Token.new Token.INTEGER "2"; Token.new Token.MINUS "-";
            Token.new Token.INTEGER "4"] 1%Z 2%Z [4%Z]); reflexivity.
Defined.

(** ** Nesting *)

(** X15.  Two opening parentheses in front: the first closing parenthesis ends
    the outer group, the inner one is never closed inside the slice, and
    the left operand of the returned node has no right operand.  When
    [parse] returns, reading [.value] raises [AttributeError], whatever
    follows. *)
Theorem parse_nested_front tok1 tok2 inner close post node :
  Token.type_ tok1 = Token.LPAREN ->
  Token.type_ tok2 = Token.LPAREN ->
  Token.type_ close = Token.RPAREN ->
  no_rparen inner = true ->
  parse (tok1 :: tok2 :: inner ++ close :: post) = Some (Ok node) ->
  (exists element,
      parse inner = Some (Ok element) /\
      BinaryExpression.left node =
        Some (Binary (BinaryExpression.new None
                        (Some (Binary element)) None))) /\
  value (Binary node) = Raise AttributeError.
Proof.
  intros H1 H2 Hclose Hinner Hrun.
  apply is_rparen_iff in Hclose.
  assert (Hinner2 : no_rparen (tok2 :: inner) = true).
  { unfold no_rparen in *. cbn [forallb]. rewrite Hinner.
    unfold is_rparen. now rewrite H2. }
  destruct (before_rparen_app (tok2 :: inner) close post Hinner2 Hclose)
    as [Hbefore Hafter].
  rewrite parse_is_parse_from, parse_from_cons, H1 in Hrun.
  change (tok2 :: inner ++ close :: post)
    with ((tok2 :: inner) ++ close :: post) in Hrun.
  rewrite Hbefore, Hafter in Hrun.
  rewrite (parse_is_parse_from (tok2 :: inner)), parse_from_cons, H2 in Hrun.
  destruct (before_rparen_all inner Hinner) as [Hall Hnone].
  rewrite Hall, Hnone in Hrun.
  destruct (parse inner) as [[element|e]|]; try discriminate.
  rewrite parse_from_nil in Hrun. cbn [store negb fst] in Hrun.
  apply (parse_from_left_kept (length post)) in Hrun; [|lia].
  cbn [BinaryExpression.left BinaryExpression.set_left] in Hrun.
  split; [now exists element|].
  destruct node as [ty l r]. cbn [BinaryExpression.left] in Hrun. subst l.
  apply value_by_completeness.
  change (complete (Binary element) && false &&
          match r with Some x => complete x | None => false end = false).
  now rewrite andb_false_r.
Qed.

Lemma parse_nested_front_witness :
  value (Binary
           (BinaryExpression.new (Some BinaryExpression.SUBTRACTION)
              (Some (Binary
                       (BinaryExpression.new None
                          (Some (Binary
                                   (BinaryExpression.new
                                      (Some BinaryExpression.ADDITION)
                                      (Some (Integer 1))
                                      (Some (Integer 2)))))
                          None)))
              (Some (Integer 3)))) = Raise AttributeError.
Proof.
  apply (parse_nested_front
           (Token.new Token.LPAREN "(") (Token.new Token.LPAREN "(")
           [Token.new Token.INTEGER "1"; Token.new Token.PLUS "+";
            Token.new Token.INTEGER "2"]
           (Token.new Token.RPAREN ")")
           [Token.new Token.MINUS "-"; Token.new Token.INTEGER "3";
            Token.new Token.RPAREN ")"]); reflexivity.
Defined.

(** X16.  The operators inside a parenthesized group set the operator of the
    group's own node only: behind the group, in a run without further
    parentheses, the operator of the returned node is the one the loop
    had before the group, or the last one set after it. *)
Theorem parse_group_scope result has_left_side tok inner close post node :
  Token.type_ tok = Token.LPAREN ->
  Token.type_ close = Token.RPAREN ->
  no_rparen inner = true ->
  flat post = true ->
  parse_from result has_left_side (tok :: inner ++ close :: post) =
    Some (Ok node) ->
  BinaryExpression.type_ node =
    final_operator (BinaryExpression.type_ result) post.
Proof.
  intros Hopen Hclose Hinner Hpost Hrun.
  apply is_rparen_iff in Hclose.
  destruct (before_rparen_app inner close post Hinner Hclose)
    as [Hbefore Hafter].
  rewrite parse_from_cons, Hopen, Hbefore, Hafter in Hrun.
  destruct (parse inner) as [[element|e]|]; try discriminate.
  destruct (parse_from_flat _ _ _ _ Hpost Hrun) as (Hty & _ & _).
  rewrite Hty. unfold store. now destruct has_left_side.
Qed.

Lemma parse_group_scope_witness :
  BinaryExpression.type_
    (BinaryExpression.new (Some BinaryExpression.ADDITION)
       (Some (Integer 7))
       (Some (Binary (BinaryExpression.new
                        (Some BinaryExpression.SUBTRACTION)
                        (Some (Integer 5)) (Some (Integer 3)))))) =
  final_operator
    (BinaryExpression.type_
       (BinaryExpression.new (Some BinaryExpression.ADDITION)
          (Some (Integer 7)) None)) [].
Proof.
  apply (parse_group_scope
           (BinaryExpression.new (Some BinaryExpression.ADDITION)
              (Some (Integer 7)) None) true
           (Token.new Token.LPAREN "(")
           [Token.new Token.INTEGER "5"; Token.new Token.MINUS "-";
            Token.new Token.INTEGER "3"]
           (Token.new Token.RPAREN ")") []); reflexivity.
Defined.

(** ** Lexing, parsing and evaluating together *)

(** X17.  What [calc] computes, by case: [ValueError] when [int] rejects the
    text of some INTEGER token; otherwise [AttributeError] when an
    operand is missing somewhere in the tree; otherwise an integer. *)
Theorem calc_value_cases input_ :
  exists tokens,
    tokenize input_ = Some tokens /\
    (int_ok tokens = false ->
     calc_value input_ = Some (Raise ValueError)) /\
    (int_ok tokens = true ->
     exists node,
       parse tokens = Some (Ok node) /\
       (complete (Binary node) = true ->
        exists v, calc_value input_ = Some (Ok v)) /\
       (complete (Binary node) = false ->
        calc_value input_ = Some (Raise AttributeError))).
Proof.
  destruct (tokenize_total input_) as [tokens Htok].
  exists tokens. split; [exact Htok|].
  unfold calc_value. rewrite Htok.
  destruct (parse_by_int_ok tokens) as [Hok Hbad].
  split.
  - intros H. now rewrite (Hbad H).
  - intros H. destruct (Hok H) as [node Hnode].
    exists node. split; [exact Hnode|]. rewrite Hnode.
    destruct (value_by_completeness (Binary node)) as [Hc Hi].
    split.
    + intros Hcomp. destruct (Hc Hcomp) as [v ->]. now exists v.
    + intros Hcomp. now rewrite (Hi Hcomp).
Qed.

Lemma py_int_rejects c ds :
  symbol_token c = None ->
  isdecimal c = false ->
  int_space c = false ->
  py_int (String c ds) = None.
Proof.
  intros Hsym Hdec Hsp. unfold py_int.
  cbn [list_ascii_of_string lstrip]. rewrite Hsp.
  assert (Hgo : int_digits AtStart 0 (c :: list_ascii_of_string ds) = None).
  { cbn [int_digits]. rewrite Hdec, Hsp.
    now destruct (Ascii.eqb c "_"). }
  unfold symbol_token in Hsym.
  destruct (Ascii.eqb_spec c "+") as [->|Hp]; [discriminate|].
  destruct (Ascii.eqb_spec c "-") as [->|Hm]; [discriminate|].
  destruct c as [[] [] [] [] [] [] [] []]; try exact Hgo; congruence.
Qed.

(** X18.  A character that [lex] does not know (no symbol, no decimal digit, no
    space that [int] skips) in front of the input is taken into the text
    of an INTEGER token, and [parse] raises [ValueError] on it. *)
Theorem calc_value_unknown_character c ds d s :
  symbol_token c = None ->
  isdecimal c = false ->
  int_space c = false ->
  all_chars isdigit ds = true ->
  isdigit d = false ->
  exists tokens,
    tokenize (String c (ds ++ String d s)) =
      Some (Token.new Token.INTEGER (String c ds) :: tokens) /\
    calc_value (String c (ds ++ String d s)) = Some (Raise ValueError).
Proof.
  intros Hsym Hdec Hsp Hds Hd.
  destruct (tokenize_total (String d s)) as [tokens Htok].
  exists tokens.
  assert (Hlex : tokenize (String c (ds ++ String d s)) =
                 Some (Token.new Token.INTEGER (String c ds) :: tokens))
    by now rewrite (tokenize_integer c ds d s Hsym Hds Hd), Htok.
  split; [exact Hlex|].
  unfold calc_value. rewrite Hlex.
  rewrite parse_is_parse_from, parse_from_cons.
  cbn [Token.type_ Token.text].
  now rewrite (py_int_rejects c ds Hsym Hdec Hsp).
Qed.

Lemma calc_value_unknown_character_witness :
  exists tokens,
    tokenize "x1+2" = Some (Token.new Token.INTEGER "x1" :: tokens) /\
    calc_value "x1+2" = Some (Raise ValueError).
Proof.
  apply (calc_value_unknown_character "x" "1" "+" "2"); reflexivity.
Defined.

(** ** Well-formed inputs *)

Lemma int_digits_decimal_acc s :
  forall acc,
    all_chars isdecimal s = true ->
    int_digits AfterDigit acc (list_ascii_of_string s) =
    Some (decimal_acc acc s).
Proof.
  induction s as [|c s IH]; intros acc H; simpl in *; [reflexivity|].
  apply andb_true_iff in H as [Hc Hs]. rewrite Hc. now apply IH.
Qed.

(** [int] reads a literal as its decimal value. *)
Lemma py_int_literal a :
  is_literal a = true -> py_int a = Some (decimal_value a).
Proof.
  destruct a as [|c ds]; [discriminate|].
  cbn [is_literal all_chars]. intros H.
  apply andb_true_iff in H as [Hc Hds].
  unfold py_int. cbn [list_ascii_of_string lstrip].
  assert (Hsp : int_space c = false)
    by (destruct c as [[] [] [] [] [] [] [] []];
        try discriminate Hc; reflexivity).
  rewrite Hsp.
  assert (Hgo : int_digits AtStart 0 (c :: list_ascii_of_string ds) =
                Some (decimal_value (String c ds))).
  { cbn [int_digits]. rewrite Hc. now apply int_digits_decimal_acc. }
  destruct c as [[] [] [] [] [] [] [] []]; try discriminate Hc; exact Hgo.
Qed.

Lemma tokenize_literal a d s :
  is_literal a = true ->
  isdigit d = false ->
  tokenize (a ++ String d s) =
  option_map (cons (Token.new Token.INTEGER a)) (tokenize (String d s)).
Proof.
  destruct a as [|c ds]; [discriminate|].
  cbn [is_literal all_chars append]. intros H Hd.
  apply andb_true_iff in H as [Hc Hds].
  apply tokenize_integer;
    auto using isdecimal_no_symbol, all_decimal_all_digit.
Qed.

Lemma operator_char_inv o ty :
  operator_char o = Some ty ->
  (o = "+"%char /\ ty = BinaryExpression.ADDITION) \/
  (o = "-"%char /\ ty = BinaryExpression.SUBTRACTION).
Proof.
  unfold operator_char.
  destruct (Ascii.eqb_spec o "+") as [->|_]; [intros [= <-]; now left|].
  destruct (Ascii.eqb_spec o "-") as [->|_]; [intros [= <-]; now right|].
  discriminate.
Qed.

Lemma tokenize_operator o ty s :
  operator_char o = Some ty ->
  isdigit o = false /\
  exists optok,
    operator_of optok = Some ty /\
    tokenize (String o s) = option_map (cons optok) (tokenize s).
Proof.
  intros Ho.
  destruct (operator_char_inv o ty Ho) as [[-> ->]|[-> ->]];
    (split; [reflexivity|]).
  - exists (Token.new Token.PLUS "+"). split; [reflexivity|].
    now apply tokenize_symbol.
  - exists (Token.new Token.MINUS "-"). split; [reflexivity|].
    now apply tokenize_symbol.
Qed.

Lemma tokenize_group a o b rest ty :
  is_literal a = true ->
  is_literal b = true ->
  operator_char o = Some ty ->
  exists optok,
    operator_of optok = Some ty /\
    tokenize (group a o b rest) =
    option_map (fun tokens =>
                  Token.new Token.LPAREN "(" :: Token.new Token.INTEGER a ::
                  optok :: Token.new Token.INTEGER b ::
                  Token.new Token.RPAREN ")" :: tokens)
               (tokenize rest).
Proof.
  intros Ha Hb Ho.
  destruct (tokenize_operator o ty (b ++ String ")" rest) Ho)
    as [Hnd (optok & Hop & Hlex)].
  exists optok. split; [exact Hop|].
  unfold group.
  rewrite (tokenize_symbol "(" _ (Token.new Token.LPAREN "(") eq_refl).
  rewrite (tokenize_literal a o _ Ha Hnd), Hlex.
  rewrite (tokenize_literal b ")" rest Hb eq_refl).
  rewrite (tokenize_symbol ")" rest (Token.new Token.RPAREN ")") eq_refl).
  now destruct (tokenize rest).
Qed.

Lemma operator_of_not_rparen optok ty :
  operator_of optok = Some ty ->
  is_rparen optok = false /\
  forall result has_left_side rest,
    parse_from result has_left_side (optok :: rest) =
    parse_from (BinaryExpression.set_type_ result ty) has_left_side rest.
Proof.
  unfold operator_of, is_rparen. intros H.
  split.
  - destruct (Token.type_ optok); try discriminate; reflexivity.
  - intros result has_left_side rest. rewrite parse_from_cons.
    destruct (Token.type_ optok); try discriminate;
      injection H as <-; reflexivity.
Qed.

Lemma parse_from_group result has_left_side a b optok ty rest :
  is_literal a = true ->
  is_literal b = true ->
  operator_of optok = Some ty ->
  parse_from result has_left_side
    (Token.new Token.LPAREN "(" :: Token.new Token.INTEGER a ::
     optok :: Token.new Token.INTEGER b ::
     Token.new Token.RPAREN ")" :: rest) =
  parse_from
    (fst (store result has_left_side
            (Binary (BinaryExpression.new (Some ty)
                       (Some (Integer (decimal_value a)))
                       (Some (Integer (decimal_value b)))))))
    true rest.
Proof.
  intros Ha Hb Hop.
  destruct (operator_of_not_rparen optok ty Hop) as [Hnr Hstep].
  rewrite parse_from_cons. cbn [Token.type_].
  cbn [before_rparen after_rparen is_rparen Token.type_ Token.Type_eqb].
  fold (is_rparen optok). rewrite Hnr.
  cbn [before_rparen after_rparen is_rparen Token.type_ Token.Type_eqb].
  rewrite parse_is_parse_from, parse_from_cons.
  cbn [Token.type_ Token.text]. rewrite (py_int_literal a Ha).
  cbn [store negb fst]. rewrite Hstep, parse_from_cons.
  cbn [Token.type_ Token.text]. rewrite (py_int_literal b Hb).
  cbn [store negb fst]. rewrite parse_from_nil. reflexivity.
Qed.

(** X19.  Two parenthesized groups of two literals each, joined by an operator
    (the shape of the input of [test_interpreter]): [calc] computes the
    arithmetic result. *)
Theorem calc_value_two_groups a o1 b o2 c o3 d t1 t2 t3 :
  is_literal a = true -> is_literal b = true ->
  is_literal c = true -> is_literal d = true ->
  operator_char o1 = Some t1 ->
  operator_char o2 = Some t2 ->
  operator_char o3 = Some t3 ->
  calc_value (group a o1 b (String o2 (group c o3 d ""))) =
  Some (Ok (apply_operator (Some t2)
              (apply_operator (Some t1) (decimal_value a) (decimal_value b))
              (apply_operator (Some t3) (decimal_value c)
                 (decimal_value d)))).
Proof.
  intros Ha Hb Hc Hd H1 H2 H3.
  destruct (tokenize_group a o1 b (String o2 (group c o3 d "")) t1 Ha Hb H1)
    as (tok1 & Hop1 & Hlex1).
  destruct (tokenize_operator o2 t2 (group c o3 d "") H2)
    as [_ (tok2 & Hop2 & Hlex2)].
  destruct (tokenize_group c o3 d "" t3 Hc Hd H3) as (tok3 & Hop3 & Hlex3).
  unfold calc_value.
  rewrite Hlex1, Hlex2, Hlex3, tokenize_empty. cbn [option_map].
  rewrite parse_is_parse_from.
  rewrite (parse_from_group _ _ a b tok1 t1 _ Ha Hb Hop1).
  cbn [store negb fst].
  rewrite (proj2 (operator_of_not_rparen tok2 t2 Hop2)).
  rewrite (parse_from_group _ _ c d tok3 t3 _ Hc Hd Hop3).
  cbn [store negb fst]. rewrite parse_from_nil.
  destruct t1, t2, t3; reflexivity.
Qed.

Lemma calc_value_two_groups_witness :
  calc_value (group "13" "+" "4" (String "-" (group "12" "+" "1" ""))) =
  Some (Ok (apply_operator (Some BinaryExpression.SUBTRACTION)
              (apply_operator (Some BinaryExpression.ADDITION)
                 (decimal_value "13") (decimal_value "4"))
              (apply_operator (Some BinaryExpression.ADDITION)
                 (decimal_value "12") (decimal_value "1")))).
Proof.
  apply (calc_value_two_groups "13" "+" "4" "-" "12" "+" "1");
    reflexivity.
Defined.

(** X20.  A literal, an operator and a parenthesized group of two literals:
    [calc] computes the arithmetic result. *)
Theorem calc_value_literal_group a o2 c o3 d t2 t3 :
  is_literal a = true ->
  is_literal c = true -> is_literal d = true ->
  operator_char o2 = Some t2 ->
  operator_char o3 = Some t3 ->
  calc_value (a ++ String o2 (group c o3 d "")) =
  Some (Ok (apply_operator (Some t2) (decimal_value a)
              (apply_operator (Some t3) (decimal_value c)
                 (decimal_value d)))).
Proof.
  intros Ha Hc Hd H2 H3.
  destruct (tokenize_operator o2 t2 (group c o3 d "") H2)
    as [Hnd (tok2 & Hop2 & Hlex2)].
  destruct (tokenize_group c o3 d "" t3 Hc Hd H3) as (tok3 & Hop3 & Hlex3).
  unfold calc_value.
  rewrite (tokenize_literal a o2 _ Ha Hnd), Hlex2, Hlex3, tokenize_empty.
  cbn [option_map].
  rewrite parse_is_parse_from, parse_from_cons.
  cbn [Token.type_ Token.text]. rewrite (py_int_literal a Ha).
  cbn [store negb fst].
  rewrite (proj2 (operator_of_not_rparen tok2 t2 Hop2)).
  rewrite (parse_from_group _ _ c d tok3 t3 _ Hc Hd Hop3).
  cbn [store negb fst]. rewrite parse_from_nil.
  destruct t2, t3; reflexivity.
Qed.

Lemma calc_value_literal_group_witness :
  calc_value ("7" ++ String "-" (group "12" "+" "1" "")) =
  Some (Ok (apply_operator (Some BinaryExpression.SUBTRACTION)
              (decimal_value "7")
              (apply_operator (Some BinaryExpression.ADDITION)
                 (decimal_value "12") (decimal_value "1")))).
Proof.
  apply (calc_value_literal_group "7" "-" "12" "+" "1"); reflexivity.
Defined.

(** ** Inputs over the documented alphabet *)

Lemma all_chars_append p a b :
  all_chars p (a ++ b) = all_chars p a && all_chars p b.
Proof.
  induction a as [|x a IH]; simpl; [reflexivity|].
  now rewrite IH, andb_assoc.
Qed.

Lemma alphabet_digits ds :
  all_chars in_alphabet ds = true ->
  all_chars isdigit ds = true ->
  all_chars isdecimal ds = true.
Proof.
  induction ds as [|c ds IH]; [reflexivity|].
  simpl. intros Ha Hd.
  apply andb_true_iff in Ha as [Hc Ha].
  apply andb_true_iff in Hd as [Hcd Hd].
  rewrite (IH Ha Hd), andb_true_r.
  unfold in_alphabet, is_symbol in Hc.
  rewrite (isdigit_no_symbol c Hcd) in Hc.
  now rewrite orb_false_r in Hc.
Qed.

Lemma lexes_alphabet s tokens :
  lexes s tokens ->
  all_chars in_alphabet s = true ->
  int_ok tokens = true.
Proof.
  induction 1 as [|c s tok tokens Hc _ IH|c ds d s tokens Hc Hds Hd _ IH|];
    intros Hs; try reflexivity.
  - simpl in Hs. apply andb_true_iff in Hs as [_ Hs].
    unfold int_ok in *. cbn [forallb]. rewrite (IH Hs), andb_true_r.
    unfold symbol_token in Hc.
    repeat match type of Hc with
           | (if ?b then _ else _) = _ =>
               destruct b; [injection Hc as <-; reflexivity|]
           end.
    discriminate.
  - cbn [all_chars] in Hs. rewrite all_chars_append in Hs.
    apply andb_true_iff in Hs as [Hca Hs].
    apply andb_true_iff in Hs as [Hdsa Hrest].
    unfold int_ok in *. cbn [forallb Token.type_ Token.text].
    rewrite (IH Hrest), andb_true_r.
    assert (Hlit : is_literal (String c ds) = true).
    { cbn [is_literal all_chars].
      rewrite (alphabet_digits ds Hdsa Hds), andb_true_r.
      unfold in_alphabet, is_symbol in Hca. rewrite Hc in Hca.
      now rewrite orb_false_r in Hca. }
    now rewrite (py_int_literal _ Hlit).
Qed.

(** X21.  On an input made of decimal digits and the four symbols only, [int]
    accepts every INTEGER token: [calc] returns an integer or raises
    [AttributeError], never [ValueError]. *)
Theorem calc_value_alphabet input_ :
  all_chars in_alphabet input_ = true ->
  exists tokens node,
    tokenize input_ = Some tokens /\
    int_ok tokens = true /\
    parse tokens = Some (Ok node) /\
    calc_value input_ = Some (value (Binary node)) /\
    value (Binary node) <> Raise ValueError.
Proof.
  intros Hs.
  destruct (tokenize_lexes input_) as [tokens [Htok Hlex]].
  pose proof (lexes_alphabet _ _ Hlex Hs) as Hok.
  destruct (proj1 (parse_by_int_ok tokens) Hok) as [node Hnode].
  exists tokens, node.
  split; [exact Htok|]. split; [exact Hok|]. split; [exact Hnode|].
  split; [unfold calc_value; now rewrite Htok, Hnode|].
  destruct (value_by_completeness (Binary node)) as [Hc Hi].
  destruct (complete (Binary node)).
  - destruct (Hc eq_refl) as [v ->]. discriminate.
  - rewrite (Hi eq_refl). discriminate.
Qed.

Lemma calc_value_alphabet_witness :
  exists tokens node,
    tokenize "(12+3)-4" = Some tokens /\
    int_ok tokens = true /\
    parse tokens = Some (Ok node) /\
    calc_value "(12+3)-4" = Some (value (Binary node)) /\
    value (Binary node) <> Raise ValueError.
Proof. apply (calc_value_alphabet "(12+3)-4"). reflexivity. Defined.

(** ** The console *)


(** [test_interpreter] raises nothing and prints three lines, the last
    one with the result 1. *)
Lemma test_interpreter_console out :
  test_interpreter out =
  (Some (Ok tt),
   out ++ ["Lexing"; "`(` `2` `+` `3` `)` `-` `(` `1` `+` `3` `)`";
           "(2+3)-(1+3) = 1"]).
Proof.
  unfold test_interpreter, calc. cbv zeta.
  assert (Hlex : lex "(2+3)-(1+3)" out =
                 (tokenize "(2+3)-(1+3)", out ++ ["Lexing"]))
    by reflexivity.
  rewrite Hlex.
  remember (tokenize "(2+3)-(1+3)") as tokens eqn:Htokens.
  vm_compute in Htokens. subst tokens. cbv iota beta.
  remember (parse _) as parsed eqn:Hparsed.
  vm_compute in Hparsed. subst parsed. cbv iota beta.
  remember (value _) as v eqn:Hv.
  vm_compute in Hv. subst v. cbv iota beta.
  now rewrite <- !app_assoc.
Qed.
